(** * Session, route guard, pagination and dashboard aggregation of the
      inventory-management client

    A shallow embedding of the parts of the Angular client that carry the
    session model ([ApiService], [LoginComponent], [GuardService]), the
    client-side pagination ([TransactionComponent], [ProductComponent],
    [PaginationComponent]) and the dashboard reducers
    ([DashboardComponent]).

    Conventions.
    - [localStorage] is a finite map from string keys to string values.
    - A JavaScript value of type [string | null] is an [option string];
      [None] is [null].
    - Integral JavaScript numbers of small magnitude (array lengths, page
      numbers, counters) are integers in [Z]; the quotient fed to
      [Math.ceil] is an exact rational.
    - Amounts are JavaScript numbers in general (IEEE 754 doubles): their
      type and their rounding addition are parameters ([JsNumber.Ops]).
    - An object literal used as a table is the finite map of its own
      properties together with what it inherits from [Object.prototype]
      ([JsObject]).
    - CryptoJS is an external library: its AES encryption and decryption are
      parameters of the development, and a small stand-in instance shows that
      the assumptions made about them can be met. *)

From Stdlib Require Import ZArith QArith Qround Lia.
From stdpp Require Import gmap strings list list_numbers fin_maps pretty.

Local Open Scope string_scope.
Local Open Scope Z_scope.

(** ** JavaScript helpers *)

Module Js.

(** Truthiness of a [string | null] value: [null] and the empty string
    are falsy, every other string is truthy. *)
Definition truthy (v : option string) : bool :=
  match v with
  | None => false
  | Some s => negb (bool_decide (s = ""))
  end.

(** [Math.ceil(a / b)] for integral [a] and non-zero integral [b]: the
    quotient is the exact rational, [Math.ceil] its ceiling. *)
Definition ceil_div (a b : Z) : Z :=
  Qceiling (Qdiv (inject_Z a) (inject_Z b)).

(** [Array.prototype.slice(start, end)]: negative indices count from the
    end of the array, both bounds are clamped to the array. *)
Definition slice {A} (l : list A) (start fin : Z) : list A :=
  let len := Z.of_nat (length l) in
  let k := if start <? 0 then Z.max (len + start) 0 else Z.min start len in
  let final := if fin <? 0 then Z.max (len + fin) 0 else Z.min fin len in
  take (Z.to_nat (final - k)) (drop (Z.to_nat k) l).

(** [Array.from({ length: n }, (_, i) => f(i))]: a negative length counts
    as zero. *)
Definition array_from {A} (n : Z) (f : Z → A) : list A :=
  (λ i : nat, f (Z.of_nat i)) <$> seq 0 (Z.to_nat n).

(** How a callback completes. *)
Inductive Completion :=
| Normal
| TypeError.

End Js.

(** ** The browser's local storage *)

Module LocalStorage.

Definition getItem (key : string) (st : gmap string string) : option string :=
  st !! key.

Definition setItem (key value : string) (st : gmap string string)
  : gmap string string :=
  <[key := value]> st.

Definition removeItem (key : string) (st : gmap string string)
  : gmap string string :=
  delete key st.

End LocalStorage.

(** ** The router *)

(** A call [router.navigate(commands, { queryParams })]. *)
Record Navigation := {
  commands : list string;
  queryParams : list (string * string)
}.

(** ** ApiService: encrypted storage and the session predicates *)

(** Outcome of [CryptoJS.AES.decrypt(c, key).toString(CryptoJS.enc.Utf8)]:
    either a string, or the call raises. *)
Inductive Decrypted :=
| Plain (s : string)
| Raises.

Module ApiService.

Definition ENCRYPTION_KEY : string := "luka-dev-inventory".

Section WithCipher.

(** [AES_encrypt salt value key] is
    [CryptoJS.AES.encrypt(value, key).toString()]; the library draws a
    fresh random salt at every call, which is made explicit here. *)
Context {Salt : Type}.
Variable AES_encrypt : Salt → string → string → string.
Variable AES_decrypt : string → string → Decrypted.

Definition encryptAndSaveToStorage (salt : Salt) (key value : string)
    (st : gmap string string) : gmap string string :=
  let encryptedValue := AES_encrypt salt value ENCRYPTION_KEY in
  LocalStorage.setItem key encryptedValue st.

(** The [try] block returns [null] when the entry is missing or empty, the
    decrypted string otherwise; the [catch] block turns a raised error into
    [null]. *)
Definition getFromStorageAndDecrypt (key : string)
    (st : gmap string string) : option string :=
  let encryptedValue := LocalStorage.getItem key st in
  if negb (Js.truthy encryptedValue) then None
  else match encryptedValue with
       | None => None
       | Some c =>
           match AES_decrypt c ENCRYPTION_KEY with
           | Plain s => Some s
           | Raises => None
           end
       end.

Definition clearAuth (st : gmap string string) : gmap string string :=
  LocalStorage.removeItem "role" (LocalStorage.removeItem "token" st).

Definition logout (st : gmap string string) : gmap string string :=
  clearAuth st.

(** [getHeader]: the value of the [Authorization] header, the template
    literal [`Bearer ${token}`]; a [null] token is printed as [null]. *)
Definition getHeader (st : gmap string string) : string :=
  let token := getFromStorageAndDecrypt "token" st in
  "Bearer " +:+ match token with
                | Some t => t
                | None => "null"
                end.

Definition isAuthenticated (st : gmap string string) : bool :=
  let token := getFromStorageAndDecrypt "token" st in
  Js.truthy token.

Definition isAdmin (st : gmap string string) : bool :=
  let role := getFromStorageAndDecrypt "role" st in
  match role with
  | Some r => bool_decide (r = "ADMIN")
  | None => false
  end.

(** What the development assumes of CryptoJS under the application key:
    a ciphertext is never the empty string (it always carries the salt
    header), and decrypting a ciphertext gives the encrypted value back. *)
Definition cipher_correct : Prop :=
  ∀ (salt : Salt) (value : string),
    AES_encrypt salt value ENCRYPTION_KEY ≠ "" ∧
    AES_decrypt (AES_encrypt salt value ENCRYPTION_KEY) ENCRYPTION_KEY
      = Plain value.

End WithCipher.

End ApiService.

(** ** LoginComponent *)

Module LoginComponent.

(** The fields of the login response that the component reads. *)
Record LoginResponse := {
  status : Z;
  token : string;
  role : string
}.

Section WithCipher.

Context {Salt : Type}.
Variable AES_encrypt : Salt → string → string → string.

(** The two writes of the success branch of [handleSubmit]: the token
    first, then the role. *)
Definition login (salt_token salt_role : Salt) (token role : string)
    (st : gmap string string) : gmap string string :=
  ApiService.encryptAndSaveToStorage AES_encrypt salt_role "role" role
    (ApiService.encryptAndSaveToStorage AES_encrypt salt_token "token" token
       st).

(** [handleSubmit] with the outcome of the request as an argument:
    [Some r] is the resolved response, [None] a rejected request (the
    [catch] branch only shows a message).  The result is the storage and
    the navigation performed, if any. *)
Definition handleSubmit (salt_token salt_role : Salt)
    (email password : string) (response : option LoginResponse)
    (st : gmap string string) : gmap string string * option Navigation :=
  if bool_decide (email = "") || bool_decide (password = "") then (st, None)
  else match response with
       | None => (st, None)
       | Some r =>
           if status r =? 200
           then (login salt_token salt_role (token r) (role r) st,
                 Some {| commands := ["/dashboard"]; queryParams := [] |})
           else (st, None)
       end.

End WithCipher.

End LoginComponent.

(** ** The session as a state machine *)

Module Session.

Inductive State :=
| Anonymous
| AuthenticatedNonAdmin
| AuthenticatedAdmin.

Section WithCipher.

Context {Salt : Type}.
Variable AES_encrypt : Salt → string → string → string.
Variable AES_decrypt : string → string → Decrypted.

(** The operations that touch the two credential entries. *)
Inductive Op :=
| Login (salt_token salt_role : Salt) (token role : string)
| Logout.

Definition step (st : gmap string string) (op : Op) : gmap string string :=
  match op with
  | Login salt_token salt_role token role =>
      LoginComponent.login AES_encrypt salt_token salt_role token role st
  | Logout => ApiService.logout st
  end.

Definition run (ops : list Op) (st : gmap string string)
  : gmap string string :=
  fold_left step ops st.

(** The state of a storage: anonymous without a token entry, otherwise
    split by [isAdmin]. *)
Definition state_of (st : gmap string string) : State :=
  match LocalStorage.getItem "token" st with
  | None => Anonymous
  | Some _ =>
      if ApiService.isAdmin AES_decrypt st then AuthenticatedAdmin
      else AuthenticatedNonAdmin
  end.

(** Both credential entries are stored, or neither is. *)
Definition paired (st : gmap string string) : Prop :=
  is_Some (st !! "token") ↔ is_Some (st !! "role").

(** The credential entries are both missing, or they are the ciphertexts
    written by one login (of a non-empty token when [nonempty] is set). *)
Definition written_by_login (nonempty : bool) (st : gmap string string)
  : Prop :=
  (st !! "token" = None ∧ st !! "role" = None) ∨
  (∃ salt_token salt_role token role,
     (nonempty = true → token ≠ "") ∧
     st !! "token"
       = Some (AES_encrypt salt_token token ApiService.ENCRYPTION_KEY) ∧
     st !! "role"
       = Some (AES_encrypt salt_role role ApiService.ENCRYPTION_KEY)).

(** Every [Login] of the sequence carries a non-empty token. *)
Definition tokens_nonempty (ops : list Op) : Prop :=
  Forall (λ op, match op with
                | Login _ _ token _ => token ≠ ""
                | Logout => True
                end) ops.

End WithCipher.

End Session.

(** ** GuardService *)

Module GuardService.

Section WithCipher.

Variable AES_decrypt : string → string → Decrypted.

(** [canActivate(route, state)]: [requiresAdmin] is
    [route.data['requiresAdmin']] ([None] when the route does not set it),
    [url] is [state.url].  The result is the returned boolean and the
    navigation performed, if any. *)
Definition canActivate (requiresAdmin : option bool) (url : string)
    (st : gmap string string) : bool * option Navigation :=
  let requiresAdmin := default false requiresAdmin in
  if requiresAdmin then
    if ApiService.isAdmin AES_decrypt st then (true, None)
    else (false, Some {| commands := ["/login"];
                         queryParams := [("returnUrl", url)] |})
  else
    if ApiService.isAuthenticated AES_decrypt st then (true, None)
    else (false, Some {| commands := ["/login"];
                         queryParams := [("returnUrl", url)] |}).

End WithCipher.

End GuardService.

(** ** Client-side pagination *)

(** What the subscriber of a list request receives: [Next items] is a
    response whose list field is [items] ([None] when the field is missing),
    [Failure] an error notification. *)
Inductive Response (A : Type) :=
| Next (items : option (list A))
| Failure.
Arguments Next {A} items.
Arguments Failure {A}.

Module TransactionComponent.

Record t (A : Type) := {
  transactions : list A;
  currentPage : Z;
  totalPages : Z;
  itemsPerPage : Z
}.
Arguments transactions {A} _.
Arguments currentPage {A} _.
Arguments totalPages {A} _.
Arguments itemsPerPage {A} _.

(** The component as constructed: first page, no pages, ten per page. *)
Definition init (A : Type) : t A :=
  {| transactions := []; currentPage := 1; totalPages := 0;
     itemsPerPage := 10 |}.

(** [loadTransactions], with what the request delivers as an argument.  The
    error branch only shows a message. *)
Definition loadTransactions {A} (res : Response A) (c : t A) : t A :=
  match res with
  | Failure => c
  | Next items =>
      let transactions := default [] items in
      let totalPages :=
        Js.ceil_div (Z.of_nat (length transactions)) (itemsPerPage c) in
      {| transactions :=
           Js.slice transactions
             ((currentPage c - 1) * itemsPerPage c)
             (currentPage c * itemsPerPage c);
         currentPage := currentPage c;
         totalPages := totalPages;
         itemsPerPage := itemsPerPage c |}
  end.

Definition onPageChange {A} (page : Z) (res : Response A) (c : t A) : t A :=
  loadTransactions res
    {| transactions := transactions c;
       currentPage := page;
       totalPages := totalPages c;
       itemsPerPage := itemsPerPage c |}.

(** The two fields of the search box: what the input holds, and the text
    the list is currently filtered by. *)
Record SearchFields := {
  searchInput : string;
  valueToSearch : string
}.

(** [handleSearch]: back to the first page, the input becomes the filter,
    and the list is reloaded.  [server text] is what the request
    [getAllTransactions(text)] delivers. *)
Definition handleSearch {A} (server : string → Response A)
    (c : t A) (s : SearchFields) : t A * SearchFields :=
  let c1 := {| transactions := transactions c;
               currentPage := 1;
               totalPages := totalPages c;
               itemsPerPage := itemsPerPage c |} in
  let s1 := {| searchInput := searchInput s;
               valueToSearch := searchInput s |} in
  (loadTransactions (server (valueToSearch s1)) c1, s1).

End TransactionComponent.

Module ProductComponent.

Record t (A : Type) := {
  products : list A;
  currentPage : Z;
  totalPages : Z;
  itemsPerPage : Z
}.
Arguments products {A} _.
Arguments currentPage {A} _.
Arguments totalPages {A} _.
Arguments itemsPerPage {A} _.

Definition init (A : Type) : t A :=
  {| products := []; currentPage := 1; totalPages := 0; itemsPerPage := 10 |}.

(** [fetchProducts], with what the request delivers as an argument.  The
    success callback first logs [products[0].imageUrl]; reading a property
    of [products[0]] raises a [TypeError] when the list is empty, and the
    callback ends there, before any field is assigned. *)
Definition fetchProducts {A} (res : Response A) (c : t A)
  : t A * Js.Completion :=
  match res with
  | Failure => (c, Js.Normal)
  | Next items =>
      let products := default [] items in
      match products !! 0%nat with
      | None => (c, Js.TypeError)
      | Some _ =>
          let totalPages :=
            Js.ceil_div (Z.of_nat (length products)) (itemsPerPage c) in
          ({| products :=
                Js.slice products
                  ((currentPage c - 1) * itemsPerPage c)
                  (currentPage c * itemsPerPage c);
              currentPage := currentPage c;
              totalPages := totalPages;
              itemsPerPage := itemsPerPage c |}, Js.Normal)
      end
  end.

Definition onPageChange {A} (page : Z) (res : Response A) (c : t A)
  : t A * Js.Completion :=
  fetchProducts res
    {| products := products c;
       currentPage := page;
       totalPages := totalPages c;
       itemsPerPage := itemsPerPage c |}.

(** What the subscriber of [deleteProduct] receives: a response with its
    [status], or an error notification. *)
Inductive DeleteOutcome :=
| Deleted (status : Z)
| DeleteFailed.

(** [handleProductDelete]: [confirmed] is the answer to [window.confirm];
    the list is reloaded only after a response with status 200.  The
    messages shown are not part of the model. *)
Definition handleProductDelete {A} (confirmed : bool)
    (outcome : DeleteOutcome) (res : Response A) (c : t A)
  : t A * Js.Completion :=
  if confirmed then
    match outcome with
    | Deleted status =>
        if status =? 200 then fetchProducts res c else (c, Js.Normal)
    | DeleteFailed => (c, Js.Normal)
    end
  else (c, Js.Normal).

End ProductComponent.

Module PaginationComponent.

Record t := {
  currentPage : Z;
  totalPages : Z
}.

(** The getter [pageNumbers]. *)
Definition pageNumbers (c : t) : list Z :=
  Js.array_from (totalPages c) (λ i, i + 1).

(** [onPageChange(page)]: the component afterwards and the values emitted
    on [pageChange]. *)
Definition onPageChange (page : Z) (c : t) : t * list Z :=
  if (1 <=? page) && (page <=? totalPages c) then (c, [page])
  else (c, []).

End PaginationComponent.

(** ** JavaScript numbers and plain objects *)

Module JsNumber.

(** The operations on JavaScript numbers (IEEE 754 doubles) that the chart
    reducers use: the constant [0], the addition [x + y], which rounds,
    the truthiness of a number ([0], [-0] and [NaN] are falsy) and its
    conversion to a string. *)
Record Ops (N : Type) := {
  zero : N;
  add : N → N → N;
  truthy : N → bool;
  toString : N → string
}.
Arguments zero {N} _.
Arguments add {N} _ _ _.
Arguments truthy {N} _ _.
Arguments toString {N} _ _.

(** [x || 0] on a number. *)
Definition orZero {N} (ops : Ops N) (x : N) : N :=
  if truthy ops x then x else zero ops.

(** The numbers that are integers of small magnitude, such as a counter
    bounded by the length of an array: on them the addition is exact. *)
Definition integers : Ops Z :=
  {| zero := 0;
     add := Z.add;
     truthy := λ x, negb (bool_decide (x = 0));
     toString := pretty |}.

(** [l.reduce((acc, x) => acc + x, 0)]: the sum accumulated from [0] in
    the order of the list, every addition rounding as the runtime does. *)
Definition sum {N} (ops : Ops N) (l : list N) : N :=
  fold_left (add ops) l (zero ops).

(** [x || 0] leaves every running total as it is while the numbers of
    [l] are added, one after the other, to [acc].  A running total that
    is [NaN] or [-0] would be replaced by [0].  Finite amounts whose
    running totals from [0] stay finite have that property (no such total
    is [NaN], and [-0] only comes out of [-0 + -0]); so have amounts that
    are not negative. *)
Fixpoint keeps {N} (ops : Ops N) (acc : N) (l : list N) : Prop :=
  match l with
  | [] => True
  | x :: l' => orZero ops acc = acc ∧ keeps ops (add ops acc x) l'
  end.

End JsNumber.

Module JsObject.

(** The property names that an object literal [{}] inherits from
    [Object.prototype]. *)
Definition prototypeKeys : list string := [
  "constructor"; "__defineGetter__"; "__defineSetter__"; "hasOwnProperty";
  "__lookupGetter__"; "__lookupSetter__"; "isPrototypeOf";
  "propertyIsEnumerable"; "toString"; "valueOf"; "__proto__";
  "toLocaleString"
].

(** What reading a property of an object used as a table of numbers can
    give: [undefined], a number, a string, or the function or object
    inherited from [Object.prototype] under that name. *)
Inductive Value (N : Type) :=
| Undefined
| Number (n : N)
| Text (s : string)
| Inherited (key : string).
Arguments Undefined {N}.
Arguments Number {N} n.
Arguments Text {N} s.
Arguments Inherited {N} key.

(** The table is the finite map of the object's own properties. *)
Definition get {N} (o : gmap string (Value N)) (key : string) : Value N :=
  match o !! key with
  | Some v => v
  | None =>
      if bool_decide (key ∈ prototypeKeys) then Inherited key else Undefined
  end.

(** [o[key] = v] for a [v] that is not an object: the assignment creates
    or overwrites the own property, except under the name [__proto__],
    whose inherited setter ignores such a value. *)
Definition set {N} (o : gmap string (Value N)) (key : string) (v : Value N)
  : gmap string (Value N) :=
  if bool_decide (key = "__proto__") then o else <[key := v]> o.

Section WithNumbers.

(** [objectText key] is the string that the value inherited under [key]
    converts to when it is an operand of [+]. *)
Context {N : Type}.
Variable ops : JsNumber.Ops N.
Variable objectText : string → string.

(** [(x || 0) + n] for a number [n]: a falsy [x] counts as [0]; a truthy
    string or an inherited function or object turns [+] into a
    concatenation of strings. *)
Definition orZeroPlus (x : Value N) (n : N) : Value N :=
  match x with
  | Undefined => Number (JsNumber.add ops (JsNumber.zero ops) n)
  | Number v => Number (JsNumber.add ops (JsNumber.orZero ops v) n)
  | Text s =>
      if bool_decide (s = "")
      then Number (JsNumber.add ops (JsNumber.zero ops) n)
      else Text (s +:+ JsNumber.toString ops n)
  | Inherited key => Text (objectText key +:+ JsNumber.toString ops n)
  end.

End WithNumbers.

End JsObject.

(** ** DashboardComponent: the chart reducers *)

(** An entry of a chart series. *)
Record ChartPoint (N : Type) := {
  name : string;
  value : JsObject.Value N
}.
Arguments name {N} _.
Arguments value {N} _.

Module DashboardComponent.

Section WithDates.

(** [Timestamp] is the type of well-formed [createdAt] values and
    [getDate tz ts] is [new Date(ts).getDate()] evaluated by a client whose
    local time zone is [tz]: the day of the month, in local time.  [Num]
    is the type of JavaScript numbers, with the operations [numbers]. *)
Context {Timestamp TimeZone Num : Type}.
Variable getDate : TimeZone → Timestamp → nat.
Variable numbers : JsNumber.Ops Num.
Variable objectText : string → string.

Record Transaction := {
  transactionType : string;
  totalPrice : Num;
  createdAt : Timestamp
}.

(** [Object.keys(o).map(k => ({ name: f(k), value: o[k] }))]: one point
    for each own property; the order of the keys is not part of the
    model. *)
Definition series {N} (f : string → string)
    (o : gmap string (JsObject.Value N)) : list (ChartPoint N) :=
  (λ kv, {| name := f kv.1; value := kv.2 |}) <$> map_to_list o.

(** One iteration of the [forEach] of [processChartData], on the pair
    ([typeCounts], [amountByType]). *)
Definition chartStep
    (acc : gmap string (JsObject.Value Z) * gmap string (JsObject.Value Num))
    (transaction : Transaction)
  : gmap string (JsObject.Value Z) * gmap string (JsObject.Value Num) :=
  let type := transactionType transaction in
  let typeCounts := acc.1 in
  let amountByType := acc.2 in
  (JsObject.set typeCounts type
     (JsObject.orZeroPlus JsNumber.integers objectText
        (JsObject.get typeCounts type) 1),
   JsObject.set amountByType type
     (JsObject.orZeroPlus numbers objectText
        (JsObject.get amountByType type) (totalPrice transaction))).

Definition chartTotals (transactions : list Transaction)
  : gmap string (JsObject.Value Z) * gmap string (JsObject.Value Num) :=
  fold_left chartStep transactions (∅, ∅).

Definition typeCounts (transactions : list Transaction)
  : gmap string (JsObject.Value Z) :=
  (chartTotals transactions).1.

Definition amountByType (transactions : list Transaction)
  : gmap string (JsObject.Value Num) :=
  (chartTotals transactions).2.

(** [processChartData] on the list held by [this.transactions]: the two
    series it assigns, [transactionTypeData] and
    [transactionAmountData]. *)
Definition processChartData (transactions : list Transaction)
  : list (ChartPoint Z) * list (ChartPoint Num) :=
  (series id (typeCounts transactions),
   series id (amountByType transactions)).

(** One iteration of the [forEach] of [processMonthlyData]. *)
Definition monthlyStep (tz : TimeZone)
    (dailyTotals : gmap string (JsObject.Value Num))
    (transaction : Transaction) : gmap string (JsObject.Value Num) :=
  let date := pretty (getDate tz (createdAt transaction)) in
  JsObject.set dailyTotals date
    (JsObject.orZeroPlus numbers objectText
       (JsObject.get dailyTotals date) (totalPrice transaction)).

Definition dailyTotals (tz : TimeZone) (transactions : list Transaction)
  : gmap string (JsObject.Value Num) :=
  fold_left (monthlyStep tz) transactions ∅.

(** [processMonthlyData]: the series it assigns to
    [monthlyTransactionData]. *)
Definition processMonthlyData (tz : TimeZone)
    (transactions : list Transaction) : list (ChartPoint Num) :=
  series (λ day, "Día " +:+ day) (dailyTotals tz transactions).

(** The transactions of a given type, and those of a given local day. *)
Definition ofType (type : string) (transactions : list Transaction)
  : list Transaction :=
  filter (λ tr, transactionType tr = type) transactions.

Definition onDay (tz : TimeZone) (day : nat)
    (transactions : list Transaction) : list Transaction :=
  filter (λ tr, getDate tz (createdAt tr) = day) transactions.

(** The amounts of a list of transactions added up from [0], in the order
    of the list. *)
Definition total (transactions : list Transaction) : Num :=
  JsNumber.sum numbers (totalPrice <$> transactions).

End WithDates.

Arguments Transaction : clear implicits.

(** The sum of the counters of a series of counts. *)
Definition countTotal (points : list (ChartPoint Z)) : Z :=
  foldr (λ point acc,
           match value point with
           | JsObject.Number n => n + acc
           | _ => acc
           end) 0 points.

(** The options of the month selector: label and value. *)
Definition months : list (string * string) := [
  ("Enero", "01"); ("Febrero", "02"); ("Marzo", "03"); ("Abril", "04");
  ("Mayo", "05"); ("Junio", "06"); ("Julio", "07"); ("Agosto", "08");
  ("Septiembre", "09"); ("Octubre", "10"); ("Noviembre", "11");
  ("Diciembre", "12")
].

(** The options of the year selector; [currentYear] is
    [new Date().getFullYear()]. *)
Definition years (currentYear : Z) : list Z :=
  Js.array_from 10 (λ i, currentYear - i).

Section Component.

(** [parseInt s] is [Number.parseInt(s)]. *)
Context {Timestamp TimeZone Num : Type}.
Variable getDate : TimeZone → Timestamp → nat.
Variable numbers : JsNumber.Ops Num.
Variable objectText : string → string.
Variable parseInt : string → Num.

(** The field [transactions] holds what the last answer carried under
    that name: a list, or [undefined] ([None]) when the answer had no
    such field. *)
Record t := {
  transactions : option (list (Transaction Timestamp Num));
  transactionTypeData : list (ChartPoint Z);
  transactionAmountData : list (ChartPoint Num);
  monthlyTransactionData : list (ChartPoint Num);
  selectedMonth : string;
  selectedYear : string
}.

Definition init : t :=
  {| transactions := Some []; transactionTypeData := [];
     transactionAmountData := []; monthlyTransactionData := [];
     selectedMonth := ""; selectedYear := "" |}.

(** How the handling of an answer ends: the callback returns; it raises a
    [TypeError]; or, the request having failed and [subscribe] having
    been given no error callback, the callback is never run and the
    error is left unhandled. *)
Inductive Outcome :=
| Completed
| Threw
| Unhandled.

(** [this.transactions = data.transactions; this.processChartData()]: the
    field is assigned first; [forEach] on [undefined] raises before any
    chart is assigned. *)
Definition storeAndChart (items : option (list (Transaction Timestamp Num)))
    (c : t) : t * Outcome :=
  match items with
  | None =>
      ({| transactions := None;
          transactionTypeData := transactionTypeData c;
          transactionAmountData := transactionAmountData c;
          monthlyTransactionData := monthlyTransactionData c;
          selectedMonth := selectedMonth c;
          selectedYear := selectedYear c |}, Threw)
  | Some data =>
      ({| transactions := Some data;
          transactionTypeData :=
            (processChartData numbers objectText data).1;
          transactionAmountData :=
            (processChartData numbers objectText data).2;
          monthlyTransactionData := monthlyTransactionData c;
          selectedMonth := selectedMonth c;
          selectedYear := selectedYear c |}, Completed)
  end.

(** [loadTransactions], with the answer to the request as an argument. *)
Definition loadTransactions (res : Response (Transaction Timestamp Num))
    (c : t) : t * Outcome :=
  match res with
  | Failure => (c, Unhandled)
  | Next items => storeAndChart items c
  end.

(** [loadMonthlyData]: nothing happens unless a month and a year are
    selected; otherwise the request [getTransactionsByMonthAndYear] is
    made with the parsed selection ([server month year] is the answer to
    it) and, when the answer carries a list, all three charts are
    recomputed from it.  The result is the component, how the handling
    ended, and the request made, if any. *)
Definition loadMonthlyData (tz : TimeZone)
    (server : Num → Num → Response (Transaction Timestamp Num)) (c : t)
  : t * Outcome * option (Num * Num) :=
  if bool_decide (selectedMonth c = "") || bool_decide (selectedYear c = "")
  then (c, Completed, None)
  else
    let month := parseInt (selectedMonth c) in
    let year := parseInt (selectedYear c) in
    match server month year with
    | Failure => (c, Unhandled, Some (month, year))
    | Next items =>
        let (c', outcome) := storeAndChart items c in
        match items, outcome with
        | Some data, Completed =>
            ({| transactions := transactions c';
                transactionTypeData := transactionTypeData c';
                transactionAmountData := transactionAmountData c';
                monthlyTransactionData :=
                  processMonthlyData getDate numbers objectText tz data;
                selectedMonth := selectedMonth c';
                selectedYear := selectedYear c' |},
             Completed, Some (month, year))
        | _, _ => (c', outcome, Some (month, year))
        end
    end.

End Component.

End DashboardComponent.

(** ** AppComponent *)

Module AppComponent.

Section WithCipher.

Variable AES_decrypt : string → string → Decrypted.

Definition isAuth (st : gmap string string) : bool :=
  ApiService.isAuthenticated AES_decrypt st.

Definition isAdmin (st : gmap string string) : bool :=
  ApiService.isAdmin AES_decrypt st.

End WithCipher.

(** [logOut]: the storage afterwards and the navigation performed. *)
Definition logOut (st : gmap string string)
  : gmap string string * option Navigation :=
  (ApiService.logout st,
   Some {| commands := ["/login"]; queryParams := [] |}).

End AppComponent.

(** ** The route table *)

Module AppRoutes.

(** An entry of [routes]: [guarded] tells whether [canActivate] lists
    [GuardService], [requiresAdmin] is [data.requiresAdmin] when the entry
    has it. *)
Record Route := {
  path : string;
  component : option string;
  guarded : bool;
  requiresAdmin : option bool;
  redirectTo : option string
}.

Definition page (path component : string) : Route :=
  {| path := path; component := Some component; guarded := false;
     requiresAdmin := None; redirectTo := None |}.

Definition adminPage (path component : string) : Route :=
  {| path := path; component := Some component; guarded := true;
     requiresAdmin := Some true; redirectTo := None |}.

Definition userPage (path component : string) : Route :=
  {| path := path; component := Some component; guarded := true;
     requiresAdmin := None; redirectTo := None |}.

Definition routes : list Route := [
  page "login" "LoginComponent";
  page "register" "RegisterComponent";
  adminPage "category" "CategoryComponent";
  adminPage "supplier" "SupplierComponent";
  adminPage "edit-supplier/:supplierId" "AddEditSupplierComponent";
  adminPage "add-supplier" "AddEditSupplierComponent";
  adminPage "product" "ProductComponent";
  adminPage "edit-product/:productId" "AddEditProductComponent";
  adminPage "add-product" "AddEditProductComponent";
  userPage "purchase" "PurchaseComponent";
  userPage "sell" "SellComponent";
  userPage "transaction" "TransactionComponent";
  userPage "transaction/:transactionId" "TransactionDetailsComponent";
  userPage "profile" "ProfileComponent";
  userPage "dashboard" "DashboardComponent";
  {| path := ""; component := None; guarded := false;
     requiresAdmin := None; redirectTo := Some "/login" |}
].

Section WithCipher.

Variable AES_decrypt : string → string → Decrypted.

(** Activating an entry for the URL [url]: the router asks the guard when
    the entry lists it, and lets the navigation through otherwise. *)
Definition activate (r : Route) (url : string) (st : gmap string string)
  : bool * option Navigation :=
  if guarded r then
    GuardService.canActivate AES_decrypt (requiresAdmin r) url st
  else (true, None).

(** The paths of the entries that can be activated, in table order. *)
Definition allowedPaths (st : gmap string string) : list string :=
  path <$> filter (λ r, (activate r ("/" +:+ path r) st).1 = true) routes.

End WithCipher.

End AppRoutes.

(** ** Forms: the sale form and the supplier form *)

(** The error notification of a request, as far as the components read
    it: [error.error.message], [error.message], and the text that string
    concatenation gives for [error]. *)
Record HttpError := {
  serverMessage : option string;
  errorMessage : option string;
  asText : string
}.

(** [error?.error?.message || error?.message || fallback + error]. *)
Definition errorText (fallback : string) (e : HttpError) : string :=
  if Js.truthy (serverMessage e) then default "" (serverMessage e)
  else if Js.truthy (errorMessage e) then default "" (errorMessage e)
  else fallback +:+ asText e.

Module SellComponent.

Record t (A : Type) := {
  products : list A;
  productId : string;
  description : string;
  quantity : string;
  message : string
}.
Arguments products {A} _.
Arguments productId {A} _.
Arguments description {A} _.
Arguments quantity {A} _.
Arguments message {A} _.

(** The body of the sale request. *)
Record Body (Num : Type) := {
  bodyProductId : string;
  bodyQuantity : Num;
  bodyDescription : string
}.
Arguments bodyProductId {Num} _.
Arguments bodyQuantity {Num} _.
Arguments bodyDescription {Num} _.

(** What the subscriber of [sellProduct] receives. *)
Inductive Reply :=
| Answer (status : Z) (message : string)
| Rejected (e : HttpError).

(** [showMessage]; the timer that clears the message after four seconds
    is not part of the model. *)
Definition showMessage {A} (text : string) (c : t A) : t A :=
  {| products := products c; productId := productId c;
     description := description c; quantity := quantity c;
     message := text |}.

Definition resetForm {A} (c : t A) : t A :=
  {| products := products c; productId := ""; description := "";
     quantity := ""; message := message c |}.

Section WithNumbers.

(** [parseInt s radix] is the global [parseInt]. *)
Context {A Num : Type}.
Variable parseInt : string → Z → Num.

(** [handleSubmit], with the server as an argument: the component
    afterwards and the body of the request sent, if any. *)
Definition handleSubmit (server : Body Num → Reply) (c : t A)
  : t A * option (Body Num) :=
  if bool_decide (productId c = "") || bool_decide (quantity c = "")
  then (showMessage "Please fill all fields" c, None)
  else
    let body := {| bodyProductId := productId c;
                   bodyQuantity := parseInt (quantity c) 10;
                   bodyDescription := description c |} in
    match server body with
    | Answer status text =>
        if status =? 200
        then (resetForm (showMessage text c), Some body)
        else (c, Some body)
    | Rejected e =>
        (showMessage (errorText "Unable to sell a product" e) c, Some body)
    end.

End WithNumbers.

End SellComponent.

Module JsString.

(** [s.split(sep)] for a separator of one character. *)
Fixpoint split (sep : Ascii.ascii) (s : string) : list string :=
  match s with
  | EmptyString => [EmptyString]
  | String c s' =>
      if Ascii.eqb c sep then EmptyString :: split sep s'
      else match split sep s' with
           | head :: tail => String c head :: tail
           | [] => [String c EmptyString]
           end
  end.

(** [s.includes(c)] for a character [c]. *)
Fixpoint contains (c : Ascii.ascii) (s : string) : bool :=
  match s with
  | EmptyString => false
  | String c' s' => Ascii.eqb c' c || contains c s'
  end.

(** The character [/]. *)
Definition slash : Ascii.ascii :=
  Eval cbv in match "/" with
              | String c _ => c
              | EmptyString => Ascii.zero
              end.

End JsString.

Module AddEditSupplierComponent.

Record t := {
  message : string;
  isEditing : bool;
  supplierId : option string;
  name : string;
  address : string
}.

Definition init : t :=
  {| message := ""; isEditing := false; supplierId := None;
     name := ""; address := "" |}.

(** What the subscriber of [getSupplierById], [updateSupplier] or
    [addSupplier] receives; an answer to [getSupplierById] carries the
    name and address of the supplier. *)
Inductive Reply :=
| Answer (status : Z) (supplierName supplierAddress : string)
| Rejected (e : HttpError).

(** The requests of the component. *)
Inductive Request :=
| GetSupplierById (id : string)
| UpdateSupplier (id : option string) (name address : string)
| AddSupplier (name address : string).

Definition showMessage (text : string) (c : t) : t :=
  {| message := text; isEditing := isEditing c;
     supplierId := supplierId c; name := name c; address := address c |}.

Definition fetchSupplier (server : Request → Reply) (c : t) : t :=
  match server (GetSupplierById (default "" (supplierId c))) with
  | Answer status supplierName supplierAddress =>
      if status =? 200
      then {| message := message c; isEditing := isEditing c;
              supplierId := supplierId c;
              name := supplierName; address := supplierAddress |}
      else c
  | Rejected e => showMessage (errorText "Unable to get supplier by id" e) c
  end.

(** [ngOnInit]; [url] is [router.url].  The third element of the split
    URL is [undefined] when there are fewer than three. *)
Definition ngOnInit (url : string) (server : Request → Reply) (c : t) : t :=
  let id := JsString.split JsString.slash url !! 2%nat in
  let c1 := {| message := message c; isEditing := isEditing c;
               supplierId := id; name := name c; address := address c |} in
  if Js.truthy id then
    fetchSupplier server
      {| message := message c1; isEditing := true;
         supplierId := supplierId c1; name := name c1;
         address := address c1 |}
  else c1.

(** [handleSubmit]: the component afterwards, the request sent and the
    navigation performed, if any. *)
Definition handleSubmit (server : Request → Reply) (c : t)
  : t * option Request * option Navigation :=
  if bool_decide (name c = "") || bool_decide (address c = "")
  then (showMessage "Todos los campos son necesarios" c, None, None)
  else
    let request :=
      if isEditing c then UpdateSupplier (supplierId c) (name c) (address c)
      else AddSupplier (name c) (address c) in
    match server request with
    | Answer status _ _ =>
        if status =? 200
        then (showMessage (if isEditing c
                           then "Supplier updated successfully"
                           else "Proveedor agregado correctamente") c,
              Some request,
              Some {| commands := ["/supplier"]; queryParams := [] |})
        else (c, Some request, None)
    | Rejected e =>
        (showMessage (errorText (if isEditing c
                                 then "No se pudo editar el proveedor"
                                 else "No se pudo agregar el proveedor") e) c,
         Some request, None)
    end.

End AddEditSupplierComponent.

(** ** A stand-in for the external libraries

    A toy cipher and calendar, used only to exhibit instances of the
    statements below; nothing is assumed of them beyond what is proved
    here. *)

Module StandIn.

Fixpoint strip_prefix (p s : string) : option string :=
  match p, s with
  | EmptyString, _ => Some s
  | String a p', String b s' =>
      if Ascii.eqb a b then strip_prefix p' s' else None
  | String _ _, EmptyString => None
  end.

Definition header (key : string) : string := "Salted__" +:+ key +:+ ":".

Definition encrypt (salt : unit) (value key : string) : string :=
  header key +:+ value.

Definition decrypt (c key : string) : Decrypted :=
  match strip_prefix (header key) c with
  | Some value => Plain value
  | None => Raises
  end.

(** Timestamps are hours since the start of a 31-day month in universal
    time, a time zone is an offset in hours. *)
Definition getDate (offset : Z) (hours : Z) : nat :=
  Z.to_nat ((hours + offset) / 24 + 1).

(** Amounts that are integers of small magnitude, and the text of the
    values inherited from [Object.prototype]. *)
Definition transaction (type : string) (price hours : Z)
  : DashboardComponent.Transaction Z Z :=
  {| DashboardComponent.transactionType := type;
     DashboardComponent.totalPrice := price;
     DashboardComponent.createdAt := hours |}.

Definition objectText (key : string) : string :=
  if bool_decide (key = "__proto__") then "[object Object]"
  else if bool_decide (key = "constructor")
  then "function Object() { [native code] }"
  else "function " +:+ key +:+ "() { [native code] }".

(** A decryption that, like CryptoJS on most damaged inputs, yields the
    empty string instead of raising. *)
Definition decrypt_lenient (c key : string) : Decrypted :=
  match strip_prefix (header key) c with
  | Some value => Plain value
  | None => Plain ""
  end.

End StandIn.

(** * Properties *)

(** ** The stand-in instances meet the assumptions *)

Lemma strip_prefix_app (p s : string) :
  StandIn.strip_prefix p (p +:+ s) = Some s.
Proof.
  induction p as [|a p IH]; simpl; [done|].
  by rewrite Ascii.eqb_refl.
Qed.

Lemma standin_cipher_correct :
  ApiService.cipher_correct StandIn.encrypt StandIn.decrypt.
Proof.
  intros salt value. split.
  - done.
  - unfold StandIn.decrypt, StandIn.encrypt. by rewrite strip_prefix_app.
Qed.

Lemma standin_lenient_cipher_correct :
  ApiService.cipher_correct StandIn.encrypt StandIn.decrypt_lenient.
Proof.
  intros salt value. split.
  - done.
  - unfold StandIn.decrypt_lenient, StandIn.encrypt.
    by rewrite strip_prefix_app.
Qed.

(** ** Encrypted storage and session predicates *)

Section SessionTheory.

Context {Salt : Type}.
Variable AES_encrypt : Salt → string → string → string.
Variable AES_decrypt : string → string → Decrypted.

Abbreviation KEY := ApiService.ENCRYPTION_KEY.
Abbreviation save := (ApiService.encryptAndSaveToStorage AES_encrypt).
Abbreviation get := (ApiService.getFromStorageAndDecrypt AES_decrypt).
Abbreviation isAuthenticated := (ApiService.isAuthenticated AES_decrypt).
Abbreviation isAdmin := (ApiService.isAdmin AES_decrypt).
Abbreviation getHeader := (ApiService.getHeader AES_decrypt).
Abbreviation cipher_ok := (ApiService.cipher_correct AES_encrypt AES_decrypt).

Lemma get_unfold (key : string) (st : gmap string string) :
  get key st =
  match st !! key with
  | None => None
  | Some c =>
      if bool_decide (c = "") then None
      else match AES_decrypt c KEY with
           | Plain s => Some s
           | Raises => None
           end
  end.
Proof.
  unfold ApiService.getFromStorageAndDecrypt, LocalStorage.getItem.
  destruct (st !! key) as [c|]; simpl; [|done].
  by case_bool_decide.
Qed.

Lemma get_save_eq (salt : Salt) (key value : string)
    (st : gmap string string) :
  cipher_ok → get key (save salt key value st) = Some value.
Proof.
  intros Hc. destruct (Hc salt value) as [Hne Hrt].
  rewrite get_unfold. unfold ApiService.encryptAndSaveToStorage,
    LocalStorage.setItem. rewrite lookup_insert_eq.
  rewrite bool_decide_eq_false_2 by done. by rewrite Hrt.
Qed.

Lemma get_save_ne (salt : Salt) (key key' value : string)
    (st : gmap string string) :
  key ≠ key' → get key' (save salt key value st) = get key' st.
Proof.
  intros Hne. rewrite !get_unfold.
  unfold ApiService.encryptAndSaveToStorage, LocalStorage.setItem.
  by rewrite lookup_insert_ne.
Qed.

Lemma get_same_entry (key : string) (st st' : gmap string string) :
  st !! key = st' !! key → get key st = get key st'.
Proof. intros H. by rewrite !get_unfold, H. Qed.

Lemma truthy_Some (v : option string) :
  Js.truthy v = true ↔ ∃ s, v = Some s ∧ s ≠ "".
Proof.
  destruct v as [s|]; simpl.
  - rewrite negb_true_iff, bool_decide_eq_false. split.
    + intros Hs. by exists s.
    + by intros (s' & [= <-] & Hs).
  - split; [done|]. by intros (s & Hs & _).
Qed.

(** C4. Reading a key returns the decrypted plaintext for an entry written
    by [encryptAndSaveToStorage] (and, more generally, for any non-empty
    entry that decrypts), returns [null] when the key is missing or holds
    the empty string, and returns [null] when decrypting the stored
    ciphertext raises: the error is caught, the result is always a value.
    An entry whose decryption raises cannot be told from a missing one by
    any reader of the storage: not by a read of its key, nor by
    [isAuthenticated], [isAdmin] or [getHeader].  A damaged entry whose
    decryption does not raise but yields a string [s] is read as [s]; when
    [s] is the empty string, [isAuthenticated] and [isAdmin] answer as for
    a missing entry, but the read gives the empty string, not [null], and
    the header is [Bearer ] followed by nothing, not [Bearer null]. *)
Theorem get_plaintext_or_absent (key : string) (st : gmap string string) :
  (cipher_ok → ∀ salt value, get key (save salt key value st) = Some value) ∧
  (∀ c s, st !! key = Some c → c ≠ "" → AES_decrypt c KEY = Plain s →
          get key st = Some s) ∧
  (st !! key = None → get key st = None) ∧
  (st !! key = Some "" → get key st = None) ∧
  (∀ c, st !! key = Some c → AES_decrypt c KEY = Raises →
        get key st = None) ∧
  (∀ c, AES_decrypt c KEY = Raises →
        get key (<[key := c]> st) = get key (delete key st) ∧
        isAuthenticated (<["token" := c]> st)
          = isAuthenticated (delete "token" st) ∧
        isAdmin (<["role" := c]> st) = isAdmin (delete "role" st) ∧
        getHeader (<["token" := c]> st) = getHeader (delete "token" st)) ∧
  (∀ c s, c ≠ "" → AES_decrypt c KEY = Plain s →
        get key (<[key := c]> st) = Some s ∧
        isAuthenticated (<["token" := c]> st) = negb (bool_decide (s = "")) ∧
        isAdmin (<["role" := c]> st) = bool_decide (s = "ADMIN") ∧
        getHeader (<["token" := c]> st) = "Bearer " +:+ s) ∧
  (∀ c, c ≠ "" → AES_decrypt c KEY = Plain "" →
        get key (<[key := c]> st) = Some "" ∧
        get key (delete key st) = None ∧
        isAuthenticated (<["token" := c]> st)
          = isAuthenticated (delete "token" st) ∧
        isAdmin (<["role" := c]> st) = isAdmin (delete "role" st) ∧
        getHeader (<["token" := c]> st) = "Bearer " ∧
        getHeader (delete "token" st) = "Bearer null").
Proof.
  assert (Hplain : ∀ k c s, c ≠ "" → AES_decrypt c KEY = Plain s →
            get k (<[k := c]> st) = Some s).
  { intros k c s Hne Hd. rewrite get_unfold, lookup_insert_eq.
    rewrite bool_decide_eq_false_2 by done. by rewrite Hd. }
  assert (Hgone : ∀ k, get k (delete k st) = None).
  { intros k. by rewrite get_unfold, lookup_delete_eq. }
  split; [|split; [|split; [|split; [|split; [|split; [|split]]]]]].
  - intros Hc salt value. by apply get_save_eq.
  - intros c s Hk Hne Hd. rewrite get_unfold, Hk.
    rewrite bool_decide_eq_false_2 by done. by rewrite Hd.
  - intros Hk. by rewrite get_unfold, Hk.
  - intros Hk. by rewrite get_unfold, Hk.
  - intros c Hk Hd. rewrite get_unfold, Hk, Hd. by case_bool_decide.
  - intros c Hd.
    assert (Hget : ∀ k, get k (<[k := c]> st) = get k (delete k st)).
    { intros k. rewrite !get_unfold, lookup_insert_eq, lookup_delete_eq, Hd.
      by case_bool_decide. }
    split; [apply Hget|].
    unfold ApiService.isAuthenticated, ApiService.isAdmin,
      ApiService.getHeader.
    by rewrite !Hget.
  - intros c s Hne Hd. split; [by apply Hplain|].
    unfold ApiService.isAuthenticated, ApiService.isAdmin,
      ApiService.getHeader.
    by rewrite !(Hplain _ c s Hne Hd).
  - intros c Hne Hd. split; [by apply Hplain|]. split; [apply Hgone|].
    unfold ApiService.isAuthenticated, ApiService.isAdmin,
      ApiService.getHeader.
    by rewrite !(Hplain _ c "" Hne Hd), !Hgone.
Qed.

(** C2. [isAdmin] is true exactly when the role read from storage is the
    string ADMIN, that is when the role entry is stored, non-empty, and
    decrypts to exactly that string.  It is false without a role entry, and
    after storing a role [r] it is true only for [r = "ADMIN"]: in
    particular it is false for the lower-case spelling and for the empty
    role. *)
Theorem isAdmin_exact (st : gmap string string) :
  (isAdmin st = true ↔ get "role" st = Some "ADMIN") ∧
  (isAdmin st = true ↔
     ∃ c, st !! "role" = Some c ∧ c ≠ "" ∧ AES_decrypt c KEY = Plain "ADMIN") ∧
  (st !! "role" = None → isAdmin st = false) ∧
  (cipher_ok →
     (∀ salt r, isAdmin (save salt "role" r st) = bool_decide (r = "ADMIN")) ∧
     (∀ salt, isAdmin (save salt "role" "admin" st) = false) ∧
     (∀ salt, isAdmin (save salt "role" "" st) = false) ∧
     (∀ salt_token salt_role,
        isAdmin (LoginComponent.login AES_encrypt salt_token salt_role
                   "t" "admin" st) = false)).
Proof.
  assert (Hget : isAdmin st = true ↔ get "role" st = Some "ADMIN").
  { unfold ApiService.isAdmin. destruct (get "role" st) as [r|]; simpl.
    - rewrite bool_decide_eq_true. split; congruence.
    - split; congruence. }
  split; [exact Hget|]. split; [|split].
  - rewrite Hget, get_unfold. split.
    + destruct (st !! "role") as [c|] eqn:Hk; [|done].
      case_bool_decide as Hne; [done|].
      destruct (AES_decrypt c KEY) as [s|] eqn:Hd; [|done].
      intros [= ->]. by exists c.
    + intros (c & -> & Hne & ->). by rewrite bool_decide_eq_false_2.
  - intros Hk. unfold ApiService.isAdmin. by rewrite get_unfold, Hk.
  - intros Hc.
    assert (Hsave : ∀ salt r,
              isAdmin (save salt "role" r st) = bool_decide (r = "ADMIN")).
    { intros salt r. unfold ApiService.isAdmin. by rewrite get_save_eq. }
    split; [exact Hsave|]. split; [|split].
    + intros salt. by rewrite Hsave.
    + intros salt. by rewrite Hsave.
    + intros salt_token salt_role. unfold LoginComponent.login.
      unfold ApiService.isAdmin. by rewrite get_save_eq.
Qed.

(** C3. [isAuthenticated] is true exactly when the token read from storage
    is a non-empty string, that is when the token entry is stored,
    non-empty, and decrypts to a non-empty string.  Nothing else is
    consulted: the answer depends on the token entry alone, and every
    non-empty token, whatever it contains, authenticates once stored. *)
Theorem isAuthenticated_exact (st : gmap string string) :
  (isAuthenticated st = true ↔ ∃ s, get "token" st = Some s ∧ s ≠ "") ∧
  (isAuthenticated st = true ↔
     ∃ c s, st !! "token" = Some c ∧ c ≠ "" ∧
            AES_decrypt c KEY = Plain s ∧ s ≠ "") ∧
  (∀ st', st !! "token" = st' !! "token" →
          isAuthenticated st = isAuthenticated st') ∧
  (cipher_ok → ∀ salt token, token ≠ "" →
     isAuthenticated (save salt "token" token st) = true).
Proof.
  assert (Hget : ∀ st0, isAuthenticated st0 = true ↔
                        ∃ s, get "token" st0 = Some s ∧ s ≠ "").
  { intros st0. unfold ApiService.isAuthenticated. apply truthy_Some. }
  split; [apply Hget|]. split; [|split].
  - rewrite Hget, get_unfold. split.
    + intros (s & Hs & Hne).
      destruct (st !! "token") as [c|] eqn:Hk; [|done].
      case_bool_decide as Hc0; [done|].
      destruct (AES_decrypt c KEY) as [s'|] eqn:Hd; [|done].
      injection Hs as ->. by exists c, s.
    + intros (c & s & -> & Hc0 & -> & Hne).
      rewrite bool_decide_eq_false_2 by done. by exists s.
  - intros st' Hk. unfold ApiService.isAuthenticated.
    by rewrite (get_same_entry "token" st st').
  - intros Hc salt token Hne. apply Hget. exists token.
    by rewrite get_save_eq.
Qed.

End SessionTheory.

(** ** The session state machine *)

Section SessionMachine.

Context {Salt : Type}.
Variable AES_encrypt : Salt → string → string → string.
Variable AES_decrypt : string → string → Decrypted.

Abbreviation KEY := ApiService.ENCRYPTION_KEY.
Abbreviation get := (ApiService.getFromStorageAndDecrypt AES_decrypt).
Abbreviation isAuthenticated := (ApiService.isAuthenticated AES_decrypt).
Abbreviation isAdmin := (ApiService.isAdmin AES_decrypt).
Abbreviation cipher_ok := (ApiService.cipher_correct AES_encrypt AES_decrypt).
Abbreviation login := (LoginComponent.login AES_encrypt).
Abbreviation logout := ApiService.logout.
Abbreviation step := (Session.step AES_encrypt).
Abbreviation run := (Session.run AES_encrypt).
Abbreviation state_of := (Session.state_of AES_decrypt).

Lemma login_token salt_token salt_role token role (st : gmap string string) :
  login salt_token salt_role token role st !! "token"
  = Some (AES_encrypt salt_token token KEY).
Proof.
  unfold LoginComponent.login, ApiService.encryptAndSaveToStorage,
    LocalStorage.setItem.
  rewrite lookup_insert_ne by done. apply lookup_insert_eq.
Qed.

Lemma login_role salt_token salt_role token role (st : gmap string string) :
  login salt_token salt_role token role st !! "role"
  = Some (AES_encrypt salt_role role KEY).
Proof.
  unfold LoginComponent.login, ApiService.encryptAndSaveToStorage,
    LocalStorage.setItem.
  apply lookup_insert_eq.
Qed.

Lemma logout_token (st : gmap string string) : logout st !! "token" = None.
Proof.
  unfold ApiService.logout, ApiService.clearAuth, LocalStorage.removeItem.
  rewrite lookup_delete_ne by done. apply lookup_delete_eq.
Qed.

Lemma logout_role (st : gmap string string) : logout st !! "role" = None.
Proof.
  unfold ApiService.logout, ApiService.clearAuth, LocalStorage.removeItem.
  apply lookup_delete_eq.
Qed.

Lemma step_paired (st : gmap string string) (op : Session.Op) :
  Session.paired (step st op).
Proof.
  unfold Session.paired. destruct op as [s1 s2 t r|]; simpl.
  - rewrite login_token, login_role. split; eauto.
  - rewrite logout_token, logout_role. split; intros [? [=]].
Qed.

Lemma run_snoc (ops : list Session.Op) (op : Session.Op)
    (st : gmap string string) :
  run (ops ++ [op]) st = step (run ops st) op.
Proof. unfold Session.run. by rewrite fold_left_app. Qed.

Lemma run_paired (ops : list Session.Op) (st : gmap string string) :
  Session.paired st → Session.paired (run ops st).
Proof.
  intros Hst. induction ops as [|op ops _] using rev_ind; [done|].
  rewrite run_snoc. apply step_paired.
Qed.

Lemma run_paired_nonempty (ops : list Session.Op) (st : gmap string string) :
  ops ≠ [] → Session.paired (run ops st).
Proof.
  destruct ops as [|op ops _] using rev_ind; [done|].
  intros _. rewrite run_snoc. apply step_paired.
Qed.

(** The storage after [handleSubmit] is that of a [login] with the token
    and role of the response when both fields are filled in and the
    response has status 200; in every other case it is untouched. *)
Lemma handleSubmit_storage salt_token salt_role (email password : string)
    (response : option LoginComponent.LoginResponse)
    (st : gmap string string) :
  (LoginComponent.handleSubmit AES_encrypt salt_token salt_role
     email password response st).1
  = match response with
    | Some r =>
        if decide (email ≠ "" ∧ password ≠ "" ∧ LoginComponent.status r = 200)
        then login salt_token salt_role
               (LoginComponent.token r) (LoginComponent.role r) st
        else st
    | None => st
    end.
Proof.
  unfold LoginComponent.handleSubmit.
  destruct response as [r|]; repeat case_bool_decide; simpl;
    try (destruct (Z.eqb_spec (LoginComponent.status r) 200));
    try case_decide; simpl; try done; tauto.
Qed.

Lemma run_written_by_login (ops : list Session.Op) :
  Session.written_by_login AES_encrypt false (run ops ∅) ∧
  (Session.tokens_nonempty ops →
   Session.written_by_login AES_encrypt true (run ops ∅)).
Proof.
  induction ops as [|op ops IH] using rev_ind.
  - unfold Session.run; simpl. split; intros; left; by rewrite !lookup_empty.
  - rewrite run_snoc. destruct op as [s1 s2 t r|]; simpl.
    + split.
      * right. exists s1, s2, t, r.
        rewrite login_token, login_role. split; [intros [=]|]. by split.
      * intros Hne. apply Forall_app in Hne as [_ Hne].
        apply Forall_inv in Hne. simpl in Hne.
        right. exists s1, s2, t, r.
        rewrite login_token, login_role. split; [by intros _|]. by split.
    + split; intros; left; by rewrite logout_token, logout_role.
Qed.

Lemma get_ciphertext (key : string) salt value (st : gmap string string) :
  cipher_ok → st !! key = Some (AES_encrypt salt value KEY) →
  get key st = Some value.
Proof.
  intros Hc Hk. destruct (Hc salt value) as [Hne Hrt].
  rewrite get_unfold, Hk, bool_decide_eq_false_2 by done. by rewrite Hrt.
Qed.

Lemma isAuthenticated_ciphertext salt token (st : gmap string string) :
  cipher_ok → token ≠ "" →
  st !! "token" = Some (AES_encrypt salt token KEY) →
  isAuthenticated st = true.
Proof.
  intros Hc Hne Hk. unfold ApiService.isAuthenticated.
  rewrite (get_ciphertext "token" salt token st Hc Hk). simpl.
  by rewrite bool_decide_eq_false_2.
Qed.

Lemma isAdmin_ciphertext salt role (st : gmap string string) :
  cipher_ok → st !! "role" = Some (AES_encrypt salt role KEY) →
  isAdmin st = bool_decide (role = "ADMIN").
Proof.
  intros Hc Hk. unfold ApiService.isAdmin.
  by rewrite (get_ciphertext "role" salt role st Hc Hk).
Qed.

Lemma isAuthenticated_no_token (st : gmap string string) :
  st !! "token" = None → isAuthenticated st = false.
Proof.
  intros Hk. unfold ApiService.isAuthenticated. by rewrite get_unfold, Hk.
Qed.

Lemma isAdmin_no_role (st : gmap string string) :
  st !! "role" = None → isAdmin st = false.
Proof. intros Hk. unfold ApiService.isAdmin. by rewrite get_unfold, Hk. Qed.

Lemma state_of_login salt_token salt_role token role
    (st : gmap string string) :
  cipher_ok →
  state_of (login salt_token salt_role token role st)
  = if bool_decide (role = "ADMIN") then Session.AuthenticatedAdmin
    else Session.AuthenticatedNonAdmin.
Proof.
  intros Hc. unfold Session.state_of, LocalStorage.getItem.
  rewrite login_token.
  by rewrite (isAdmin_ciphertext salt_role role _ Hc (login_role _ _ _ _ _)).
Qed.

Lemma state_of_logout (st : gmap string string) :
  state_of (logout st) = Session.Anonymous.
Proof.
  unfold Session.state_of, LocalStorage.getItem. by rewrite logout_token.
Qed.

(** C5. [login] writes the token entry and the role entry and leads to one
    of the two authenticated states (the admin one exactly for the role
    ADMIN); [logout] removes both entries and leads to the anonymous state.
    Hence after any sequence of logins and logouts the two entries are both
    stored or both missing (from a storage where this holds, and after at
    least one operation from any storage).  Starting from the empty
    storage, the storage is always in one of three states, each of which is reached: anonymous
    (no token entry; neither authenticated nor admin), authenticated
    non-admin and authenticated admin (token entry stored; authenticated
    whenever the logins carried non-empty tokens).  [isAuthenticated] is
    false right after [logout], and true right after a login with token
    ["t"] and role ["USER"]. *)
Theorem session_state_machine (salt0 : Salt) :
  cipher_ok →
  (∀ salt_token salt_role token role (st : gmap string string),
     let st' := login salt_token salt_role token role st in
     is_Some (st' !! "token") ∧ is_Some (st' !! "role") ∧
     state_of st' = if bool_decide (role = "ADMIN")
                    then Session.AuthenticatedAdmin
                    else Session.AuthenticatedNonAdmin) ∧
  (∀ st : gmap string string,
     logout st !! "token" = None ∧ logout st !! "role" = None ∧
     state_of (logout st) = Session.Anonymous) ∧
  (∀ ops (st : gmap string string),
     Session.paired st ∨ ops ≠ [] → Session.paired (run ops st)) ∧
  (∀ ops,
     let st := run ops ∅ in
     match state_of st with
     | Session.Anonymous =>
         st !! "token" = None ∧ st !! "role" = None ∧
         isAuthenticated st = false ∧ isAdmin st = false
     | Session.AuthenticatedNonAdmin =>
         is_Some (st !! "token") ∧ is_Some (st !! "role") ∧
         isAdmin st = false ∧
         (Session.tokens_nonempty ops → isAuthenticated st = true)
     | Session.AuthenticatedAdmin =>
         is_Some (st !! "token") ∧ is_Some (st !! "role") ∧
         isAdmin st = true ∧
         (Session.tokens_nonempty ops → isAuthenticated st = true)
     end) ∧
  (∀ s, ∃ ops, Session.tokens_nonempty ops ∧ state_of (run ops ∅) = s) ∧
  (∀ st : gmap string string, isAuthenticated (logout st) = false) ∧
  (∀ salt_token salt_role (st : gmap string string),
     isAuthenticated (login salt_token salt_role "t" "USER" st) = true).
Proof.
  intros Hc. split; [|split; [|split; [|split; [|split; [|split]]]]].
  - intros s1 s2 t r st st'. subst st'.
    rewrite login_token, login_role, state_of_login by done. eauto.
  - intros st. by rewrite logout_token, logout_role, state_of_logout.
  - intros ops st [Hst|Hops];
      [by apply run_paired|by apply run_paired_nonempty].
  - intros ops st. subst st.
    destruct (run_written_by_login ops) as [Hw Hne].
    unfold Session.state_of, LocalStorage.getItem.
    destruct Hw as [[Ht Hr]|(s1 & s2 & t & r & _ & Ht & Hr)].
    + rewrite Ht. split; [done|]. split; [done|].
      split; [by apply isAuthenticated_no_token|by apply isAdmin_no_role].
    + assert (Hauth : Session.tokens_nonempty ops →
                      isAuthenticated (run ops ∅) = true).
      { intros Hn.
        destruct (Hne Hn) as [[Ht' _]|(s1' & _ & t' & _ & Hn' & Ht' & _)].
        - congruence.
        - apply (isAuthenticated_ciphertext s1' t'); auto. }
      rewrite Ht, Hr.
      destruct (isAdmin (run ops ∅)) eqn:Hadm; eauto 10.
  - intros [| |].
    + exists []. split; [constructor|done].
    + exists [Session.Login salt0 salt0 "t" "USER"]. split.
      * repeat constructor. done.
      * unfold Session.run; simpl. by rewrite state_of_login.
    + exists [Session.Login salt0 salt0 "t" "ADMIN"]. split.
      * repeat constructor. done.
      * unfold Session.run; simpl. by rewrite state_of_login.
  - intros st. apply isAuthenticated_no_token, logout_token.
  - intros s1 s2 st.
    apply (isAuthenticated_ciphertext s1 "t"); [done|done|].
    apply login_token.
Qed.

End SessionMachine.

(** ** The route guard *)

Section GuardTheory.

Variable AES_decrypt : string → string → Decrypted.

Abbreviation isAuthenticated := (ApiService.isAuthenticated AES_decrypt).
Abbreviation isAdmin := (ApiService.isAdmin AES_decrypt).
Abbreviation canActivate := (GuardService.canActivate AES_decrypt).

(** The navigation of a denial: to the login view, with the requested URL
    as the [returnUrl] query parameter. *)
Abbreviation toLogin url :=
  (Some {| commands := ["/login"]; queryParams := [("returnUrl", url)] |}).

(** C1. For every route, requested URL and storage: when the route's
    [requiresAdmin] flag is true the guard allows exactly when [isAdmin]
    holds, otherwise (flag false or not set) it allows exactly when
    [isAuthenticated] holds; an allowed entry navigates nowhere, and every
    denial navigates to the login view carrying the requested URL as the
    return path.  In particular an authenticated session that is not admin
    is denied on a route that requires admin. *)
Theorem canActivate_decision (requiresAdmin : option bool) (url : string)
    (st : gmap string string) :
  let decision := canActivate requiresAdmin url st in
  (requiresAdmin = Some true →
     (decision.1 = true ↔ isAdmin st = true)) ∧
  (requiresAdmin ≠ Some true →
     (decision.1 = true ↔ isAuthenticated st = true)) ∧
  (decision.1 = true → decision.2 = None) ∧
  (decision.1 = false → decision.2 = toLogin url) ∧
  (isAuthenticated st = true → isAdmin st = false →
     canActivate (Some true) url st = (false, toLogin url)).
Proof.
  unfold GuardService.canActivate.
  destruct requiresAdmin as [[|]|]; simpl;
    destruct (isAdmin st) eqn:Hadm, (isAuthenticated st) eqn:Hauth; simpl;
    repeat split; try done; try congruence.
Qed.

End GuardTheory.

(** ** Instances on the stand-in cipher *)

Lemma get_plaintext_or_absent_witness :
  ApiService.cipher_correct StandIn.encrypt StandIn.decrypt ∧
  ApiService.getFromStorageAndDecrypt StandIn.decrypt "token"
    (ApiService.encryptAndSaveToStorage StandIn.encrypt () "token" "t" ∅)
  = Some "t".
Proof.
  split; [exact standin_cipher_correct|].
  exact (proj1 (get_plaintext_or_absent StandIn.encrypt StandIn.decrypt
                  "token" ∅) standin_cipher_correct () "t").
Defined.

(** C4, the entry that is not read as missing.  Under a cipher that meets
    the assumption on ciphertexts and that, like CryptoJS on most damaged
    inputs, yields the empty string instead of raising, the entry
    [garbage] (which lacks the header of every ciphertext) is read as the
    empty string and the header is [Bearer ] followed by nothing, whereas
    without the entry the read gives [null] and the header is
    [Bearer null]. *)
Lemma corrupted_entry_not_absent :
  ApiService.cipher_correct StandIn.encrypt StandIn.decrypt_lenient ∧
  StandIn.strip_prefix (StandIn.header ApiService.ENCRYPTION_KEY) "garbage"
    = None ∧
  ApiService.getFromStorageAndDecrypt StandIn.decrypt_lenient "token"
    {["token" := "garbage"]} = Some "" ∧
  ApiService.getFromStorageAndDecrypt StandIn.decrypt_lenient "token"
    (delete "token" {["token" := "garbage"]}) = None ∧
  ApiService.getHeader StandIn.decrypt_lenient {["token" := "garbage"]}
    = "Bearer " ∧
  ApiService.getHeader StandIn.decrypt_lenient
    (delete "token" {["token" := "garbage"]}) = "Bearer null".
Proof.
  split; [exact standin_lenient_cipher_correct|].
  repeat split; vm_compute; reflexivity.
Qed.

Lemma isAdmin_exact_witness :
  ApiService.cipher_correct StandIn.encrypt StandIn.decrypt ∧
  ApiService.isAdmin StandIn.decrypt
    (LoginComponent.login StandIn.encrypt () () "t" "admin" ∅) = false.
Proof.
  split; [exact standin_cipher_correct|].
  apply (isAdmin_exact StandIn.encrypt StandIn.decrypt ∅).
  exact standin_cipher_correct.
Defined.

Lemma isAuthenticated_exact_witness :
  ApiService.cipher_correct StandIn.encrypt StandIn.decrypt ∧
  ApiService.isAuthenticated StandIn.decrypt
    (ApiService.encryptAndSaveToStorage StandIn.encrypt () "token" "t" ∅)
  = true.
Proof.
  split; [exact standin_cipher_correct|].
  apply (isAuthenticated_exact StandIn.encrypt StandIn.decrypt ∅).
  - exact standin_cipher_correct.
  - done.
Defined.

Lemma session_state_machine_witness :
  ApiService.cipher_correct StandIn.encrypt StandIn.decrypt ∧
  ApiService.isAuthenticated StandIn.decrypt
    (LoginComponent.login StandIn.encrypt () () "t" "USER" ∅) = true.
Proof.
  split; [exact standin_cipher_correct|].
  apply (session_state_machine StandIn.encrypt StandIn.decrypt ()
           standin_cipher_correct).
Defined.

Lemma canActivate_decision_witness :
  ApiService.isAuthenticated StandIn.decrypt
    (LoginComponent.login StandIn.encrypt () () "t" "USER" ∅) = true ∧
  ApiService.isAdmin StandIn.decrypt
    (LoginComponent.login StandIn.encrypt () () "t" "USER" ∅) = false ∧
  GuardService.canActivate StandIn.decrypt (Some true) "/category"
    (LoginComponent.login StandIn.encrypt () () "t" "USER" ∅)
  = (false, Some {| commands := ["/login"];
                    queryParams := [("returnUrl", "/category")] |}).
Proof.
  assert (Hauth : ApiService.isAuthenticated StandIn.decrypt
            (LoginComponent.login StandIn.encrypt () () "t" "USER" ∅) = true)
    by (vm_compute; reflexivity).
  assert (Hadm : ApiService.isAdmin StandIn.decrypt
            (LoginComponent.login StandIn.encrypt () () "t" "USER" ∅) = false)
    by (vm_compute; reflexivity).
  split; [exact Hauth|]. split; [exact Hadm|].
  by apply (canActivate_decision StandIn.decrypt (Some true) "/category").
Defined.

(** ** Arithmetic of [Math.ceil] and indices of [slice] *)

Lemma ceil_div_eq (a b : Z) : 0 < b → Js.ceil_div a b = - (- a / b).
Proof.
  intros Hb. destruct b as [|p|p]; try lia.
  unfold Js.ceil_div, Qceiling, Qfloor, Qdiv, Qinv, Qmult, Qopp, inject_Z.
  simpl. by rewrite Z.mul_1_r.
Qed.

(** The ceiling is the least number of pages of [b] items that hold [a]
    items. *)
Lemma ceil_div_bounds (a b : Z) :
  0 < b → (Js.ceil_div a b - 1) * b < a ≤ Js.ceil_div a b * b.
Proof.
  intros Hb. rewrite ceil_div_eq by done.
  pose proof (Z.div_mod (- a) b) as Hdm.
  pose proof (Z.mod_pos_bound (- a) b Hb) as Hm.
  nia.
Qed.

Lemma ceil_div_unique (a b t : Z) :
  0 < b → (t - 1) * b < a ≤ t * b → t = Js.ceil_div a b.
Proof.
  intros Hb Ht. pose proof (ceil_div_bounds a b Hb). nia.
Qed.

Lemma ceil_div_zero (b : Z) : 0 < b → Js.ceil_div 0 b = 0.
Proof. intros Hb. symmetry. apply ceil_div_unique; lia. Qed.

Lemma ceil_div_nonneg (a b : Z) : 0 < b → 0 ≤ a → 0 ≤ Js.ceil_div a b.
Proof. intros Hb Ha. pose proof (ceil_div_bounds a b Hb). nia. Qed.

(** With bounds [0 ≤ start ≤ fin], [slice] keeps the elements at the
    indices [start], ..., [fin - 1] that exist. *)
Lemma slice_lookup {A} (l : list A) (start fin : Z) (i : nat) :
  0 ≤ start ≤ fin →
  Js.slice l start fin !! i =
  if decide (Z.of_nat i < fin - start) then l !! (Z.to_nat start + i)%nat
  else None.
Proof.
  intros Hb. unfold Js.slice.
  rewrite (proj2 (Z.ltb_ge start 0)), (proj2 (Z.ltb_ge fin 0)) by lia.
  destruct (decide (Z.of_nat (length l) ≤ start)) as [Hge|Hlt].
  - rewrite drop_ge, take_nil by lia. simpl.
    case_decide; [|done]. symmetry. apply lookup_ge_None. lia.
  - rewrite (Z.min_l start) by lia.
    destruct (decide (Z.of_nat i < fin - start)) as [Hi|Hi].
    + destruct (decide (Z.of_nat i < Z.of_nat (length l) - start)).
      * rewrite lookup_take_lt by lia. apply lookup_drop.
      * rewrite lookup_take_ge by lia. symmetry. apply lookup_ge_None. lia.
    + apply lookup_take_ge. lia.
Qed.

Lemma slice_take_drop {A} (l : list A) (start fin : Z) :
  0 ≤ start ≤ fin →
  Js.slice l start fin
  = take (Z.to_nat (fin - start)) (drop (Z.to_nat start) l).
Proof.
  intros Hb. apply list_eq. intros i. rewrite slice_lookup by done.
  case_decide.
  - rewrite lookup_take_lt by lia. by rewrite lookup_drop.
  - rewrite lookup_take_ge by lia. done.
Qed.

Lemma slice_length {A} (l : list A) (start fin : Z) :
  0 ≤ start ≤ fin →
  Z.of_nat (length (Js.slice l start fin))
  = Z.max 0 (Z.min fin (Z.of_nat (length l)) - start).
Proof.
  intros Hb. rewrite slice_take_drop by done.
  rewrite length_take, length_drop. lia.
Qed.

(** ** Pagination of the transaction and product lists *)

Section Pagination.

Context {A : Type}.

(** On every delivered list and positive page size, [loadTransactions]
    sets [totalPages] to the ceiling of the quotient: the least number of
    pages that hold all items, hence zero for the empty list. *)
Lemma loadTransactions_totalPages (items : option (list A))
    (c : TransactionComponent.t A) :
  0 < TransactionComponent.itemsPerPage c →
  let n := Z.of_nat (length (default [] items)) in
  let size := TransactionComponent.itemsPerPage c in
  let pages :=
    TransactionComponent.totalPages
      (TransactionComponent.loadTransactions (Next items) c) in
  pages = Js.ceil_div n size ∧
  (pages - 1) * size < n ≤ pages * size ∧
  (default [] items = [] → pages = 0).
Proof.
  intros Hsize n size pages. subst pages; simpl. fold n size.
  split; [done|]. split; [by apply ceil_div_bounds|].
  intros Hnil. subst n. rewrite Hnil. by apply ceil_div_zero.
Qed.

(** [fetchProducts] does the same on every non-empty list. *)
Lemma fetchProducts_totalPages (x : A) (items : list A)
    (c : ProductComponent.t A) :
  0 < ProductComponent.itemsPerPage c →
  let n := Z.of_nat (length (x :: items)) in
  let size := ProductComponent.itemsPerPage c in
  let result := ProductComponent.fetchProducts (Next (Some (x :: items))) c in
  result.2 = Js.Normal ∧
  ProductComponent.totalPages result.1 = Js.ceil_div n size ∧
  (ProductComponent.totalPages result.1 - 1) * size < n
    ≤ ProductComponent.totalPages result.1 * size.
Proof.
  intros Hsize n size result. subst result; simpl. fold size.
  split; [done|]. split; [done|]. by apply ceil_div_bounds.
Qed.

(** On the empty list (delivered as such, or as a missing field),
    [fetchProducts] raises before any assignment: the component keeps its
    previous page count and page. *)
Lemma fetchProducts_empty (items : option (list A))
    (c : ProductComponent.t A) :
  default [] items = [] →
  ProductComponent.fetchProducts (Next items) c = (c, Js.TypeError).
Proof.
  intros Hnil. unfold ProductComponent.fetchProducts. by rewrite Hnil.
Qed.

(** C7. For a positive page size and a page number [p ≥ 1],
    [loadTransactions] keeps the slice of the delivered list from index
    [(p - 1) * size] up to, not including, [p * size]: element [i] of the
    page is element [(p - 1) * size + i] of the list for [i < size].  A
    page beyond [totalPages] is empty; a page before the last has exactly
    [size] elements; the last page has the remaining
    [n - size * (totalPages - 1)] elements, at least one and at most
    [size]. *)
Theorem loadTransactions_page (items : option (list A))
    (c : TransactionComponent.t A) :
  0 < TransactionComponent.itemsPerPage c →
  1 ≤ TransactionComponent.currentPage c →
  let all := default [] items in
  let n := Z.of_nat (length all) in
  let size := TransactionComponent.itemsPerPage c in
  let p := TransactionComponent.currentPage c in
  let c' := TransactionComponent.loadTransactions (Next items) c in
  let page := TransactionComponent.transactions c' in
  let pages := TransactionComponent.totalPages c' in
  page = take (Z.to_nat size) (drop (Z.to_nat ((p - 1) * size)) all) ∧
  (∀ i : nat,
     page !! i = if decide (Z.of_nat i < size)
                 then all !! (Z.to_nat ((p - 1) * size) + i)%nat
                 else None) ∧
  (pages < p → page = []) ∧
  (p < pages → Z.of_nat (length page) = size) ∧
  (p = pages →
     Z.of_nat (length page) = n - size * (pages - 1) ∧
     0 < Z.of_nat (length page) ≤ size).
Proof.
  intros Hsize Hp all n size p c' page pages.
  assert (Hb : 0 ≤ (p - 1) * size ≤ p * size) by (subst size p; nia).
  assert (Hpage : page = Js.slice all ((p - 1) * size) (p * size)) by done.
  assert (Hpages : (pages - 1) * size < n ≤ pages * size).
  { apply (loadTransactions_totalPages items c Hsize). }
  assert (Hlen : Z.of_nat (length page)
                 = Z.max 0 (Z.min (p * size) n - (p - 1) * size)).
  { rewrite Hpage. by apply slice_length. }
  assert (Hw : p * size - (p - 1) * size = size) by ring.
  split; [|split; [|split; [|split]]].
  - rewrite Hpage, slice_take_drop by done. by rewrite Hw.
  - intros i. rewrite Hpage, slice_lookup by done. by rewrite Hw.
  - intros Hout. apply length_zero_iff_nil. nia.
  - intros Hin. nia.
  - intros Hlast. nia.
Qed.

End Pagination.

(** C6, on [ProductComponent.fetchProducts].  A product list of one item is
    loaded, which sets [totalPages] to 1; the list is then delivered empty
    (the last product was deleted).  The callback raises a [TypeError] on
    [products[0].imageUrl] and [totalPages] stays 1, whereas the ceiling of
    0 / 10 is 0, which is what [TransactionComponent.loadTransactions]
    stores on the same two deliveries. *)
Theorem fetchProducts_empty_list_raises :
  let loaded :=
    (ProductComponent.fetchProducts (Next (Some ["p"]))
       (ProductComponent.init string)).1 in
  let loaded' :=
    TransactionComponent.loadTransactions (Next (Some ["p"]))
      (TransactionComponent.init string) in
  ProductComponent.totalPages loaded = 1 ∧
  ProductComponent.fetchProducts (Next (Some [])) loaded
    = (loaded, Js.TypeError) ∧
  ProductComponent.totalPages
    (ProductComponent.fetchProducts (Next (Some [])) loaded).1 = 1 ∧
  Js.ceil_div (Z.of_nat (length (@nil string)))
    (ProductComponent.itemsPerPage loaded) = 0 ∧
  TransactionComponent.totalPages loaded' = 1 ∧
  TransactionComponent.totalPages
    (TransactionComponent.loadTransactions (Next (Some [])) loaded') = 0.
Proof. vm_compute. repeat split. Qed.

(** ** The page selector *)

Lemma pageNumbers_seqZ (c : PaginationComponent.t) :
  PaginationComponent.pageNumbers c
  = seqZ 1 (PaginationComponent.totalPages c).
Proof.
  unfold PaginationComponent.pageNumbers, Js.array_from, seqZ.
  apply list_fmap_ext. intros _ i _. lia.
Qed.

(** C8. [pageNumbers] is the ascending sequence 1, 2, ..., [totalPages]:
    it has [totalPages] elements, its element at index [i] is [i + 1], and
    it contains exactly the pages between 1 and [totalPages].
    [onPageChange] emits the requested page, and nothing else, when
    [1 ≤ requested ≤ totalPages]; otherwise it emits nothing; in both cases
    the component, and so its current page, is unchanged. *)
Theorem page_selector (c : PaginationComponent.t) (requested : Z) :
  let pages := PaginationComponent.totalPages c in
  let result := PaginationComponent.onPageChange requested c in
  PaginationComponent.pageNumbers c = seqZ 1 pages ∧
  length (PaginationComponent.pageNumbers c) = Z.to_nat pages ∧
  (∀ (i : nat) (p : Z),
     PaginationComponent.pageNumbers c !! i = Some p ↔
     p = Z.of_nat i + 1 ∧ Z.of_nat i < pages) ∧
  (∀ p, p ∈ PaginationComponent.pageNumbers c ↔ 1 ≤ p ≤ pages) ∧
  (1 ≤ requested ≤ pages → result.2 = [requested]) ∧
  (¬ (1 ≤ requested ≤ pages) → result.2 = []) ∧
  (result.2 = [requested] ↔ 1 ≤ requested ≤ pages) ∧
  result.1 = c ∧
  PaginationComponent.currentPage result.1
    = PaginationComponent.currentPage c.
Proof.
  intros pages result.
  assert (Hres : result = if (1 <=? requested) && (requested <=? pages)
                          then (c, [requested]) else (c, [])) by done.
  split; [apply pageNumbers_seqZ|]. rewrite pageNumbers_seqZ. fold pages.
  split; [apply length_seqZ|].
  split; [intros i p; rewrite lookup_seqZ; lia|].
  split; [intros p; rewrite elem_of_seqZ; lia|].
  destruct (1 <=? requested) eqn:H1, (requested <=? pages) eqn:H2;
    simpl in Hres; rewrite Hres; simpl;
    try apply Z.leb_le in H1; try apply Z.leb_le in H2;
    try apply Z.leb_gt in H1; try apply Z.leb_gt in H2;
    repeat split; try done; try lia.
Qed.

Lemma page_selector_witness :
  (PaginationComponent.onPageChange 2
     {| PaginationComponent.currentPage := 1;
        PaginationComponent.totalPages := 3 |}).2 = [2] ∧
  (PaginationComponent.onPageChange 4
     {| PaginationComponent.currentPage := 1;
        PaginationComponent.totalPages := 3 |}).2 = [].
Proof.
  split.
  - apply (page_selector {| PaginationComponent.currentPage := 1;
                            PaginationComponent.totalPages := 3 |} 2).
    simpl. lia.
  - apply (page_selector {| PaginationComponent.currentPage := 1;
                            PaginationComponent.totalPages := 3 |} 4).
    simpl. lia.
Defined.

Lemma loadTransactions_page_witness :
  let c := {| TransactionComponent.transactions := [];
              TransactionComponent.currentPage := 2;
              TransactionComponent.totalPages := 0;
              TransactionComponent.itemsPerPage := 2 |} in
  0 < TransactionComponent.itemsPerPage c ∧
  1 ≤ TransactionComponent.currentPage c ∧
  TransactionComponent.transactions
    (TransactionComponent.loadTransactions (Next (Some ["a"; "b"; "c"])) c)
  = ["c"].
Proof.
  intros c.
  assert (Hsize : 0 < TransactionComponent.itemsPerPage c) by (simpl; lia).
  assert (Hpage : 1 ≤ TransactionComponent.currentPage c) by (simpl; lia).
  split; [exact Hsize|]. split; [exact Hpage|].
  exact (proj1 (loadTransactions_page (Some ["a"; "b"; "c"]) c Hsize Hpage)).
Defined.

(** ** Grouped accumulation in an object used as a table *)

Lemma proto_prototype_key : "__proto__" ∈ JsObject.prototypeKeys.
Proof. unfold JsObject.prototypeKeys. rewrite !elem_of_cons. tauto. Qed.

Lemma set_lookup_ne {N} (o : gmap string (JsObject.Value N))
    (k k' : string) (v : JsObject.Value N) :
  k ≠ k' → JsObject.set o k v !! k' = o !! k'.
Proof.
  intros Hne. unfold JsObject.set. case_bool_decide; [done|].
  by rewrite lookup_insert_ne.
Qed.

Lemma set_lookup_eq {N} (o : gmap string (JsObject.Value N))
    (k : string) (v : JsObject.Value N) :
  k ≠ "__proto__" → JsObject.set o k v !! k = Some v.
Proof.
  intros Hne. unfold JsObject.set.
  rewrite bool_decide_eq_false_2 by done. by rewrite lookup_insert_eq.
Qed.

Lemma get_own {N} (o : gmap string (JsObject.Value N)) (k : string)
    (v : JsObject.Value N) :
  o !! k = Some v → JsObject.get o k = v.
Proof. intros Hk. unfold JsObject.get. by rewrite Hk. Qed.

Lemma get_fresh {N} (o : gmap string (JsObject.Value N)) (k : string) :
  o !! k = None → k ∉ JsObject.prototypeKeys →
  JsObject.get o k = JsObject.Undefined.
Proof.
  intros Hk Hout. unfold JsObject.get. rewrite Hk.
  by rewrite bool_decide_eq_false_2.
Qed.

Lemma integers_orZero (x : Z) : JsNumber.orZero JsNumber.integers x = x.
Proof.
  unfold JsNumber.orZero. simpl. by case_bool_decide.
Qed.

Lemma integers_keeps (l : list Z) (acc : Z) :
  JsNumber.keeps JsNumber.integers acc l.
Proof.
  revert acc. induction l as [|x l IH]; intros acc; simpl; [done|].
  split; [apply integers_orZero|apply IH].
Qed.

Lemma count_of_ones {B} (l : list B) :
  JsNumber.sum JsNumber.integers ((λ _, 1) <$> l) = Z.of_nat (length l).
Proof.
  unfold JsNumber.sum. simpl.
  assert (H : ∀ a, fold_left Z.add ((λ _ : B, 1) <$> l) a
                   = a + Z.of_nat (length l)).
  { induction l as [|x l IH]; intros a; simpl; [lia|]. rewrite IH. lia. }
  by rewrite H.
Qed.

Section ObjectFold.

Context {B N : Type}.
Variable ops : JsNumber.Ops N.
Variable objectText : string → string.
Variable key : B → string.
Variable amount : B → N.

Abbreviation accumulate :=
  (fold_left (λ (o : gmap string (JsObject.Value N)) (x : B),
     JsObject.set o (key x)
       (JsObject.orZeroPlus ops objectText (JsObject.get o (key x))
          (amount x)))).
Abbreviation amounts k l := (amount <$> filter (λ x, key x = k) l).

(** A name that is the key of no element keeps what it had. *)
Lemma accumulate_other (l : list B) (o : gmap string (JsObject.Value N))
    (k : string) :
  k ∉ key <$> l → accumulate l o !! k = o !! k.
Proof.
  revert o. induction l as [|x l IH]; intros o Hout; simpl; [done|].
  rewrite fmap_cons in Hout. apply not_elem_of_cons in Hout as [Hne Hout].
  rewrite IH by done. by apply set_lookup_ne.
Qed.


(** The own properties after the loop: those there before, and the keys
    of the elements other than [__proto__]. *)
Lemma accumulate_is_Some (l : list B) (o : gmap string (JsObject.Value N))
    (k : string) :
  is_Some (accumulate l o !! k) ↔
  is_Some (o !! k) ∨ (k ∈ key <$> l ∧ k ≠ "__proto__").
Proof.
  revert o. induction l as [|x l IH]; intros o; simpl.
  - rewrite elem_of_nil. tauto.
  - rewrite IH, elem_of_cons. clear IH.
    destruct (decide (key x = k)) as [<-|Hne].
    + destruct (decide (key x = "__proto__")) as [Hp|Hp].
      * unfold JsObject.set. rewrite bool_decide_eq_true_2 by done. tauto.
      * rewrite set_lookup_eq by done. split; [|by left].
        intros _. right. split; [by left|done].
    + rewrite set_lookup_ne by done. split.
      * intros [H|[H1 H2]]; [by left|]. right. tauto.
      * intros [H|[[H|H] H2]]; [by left|congruence|]. by right.
Qed.

(** A number already held under a name is added to in the order of the
    list. *)
Lemma accumulate_running (l : list B) (o : gmap string (JsObject.Value N))
    (k : string) (v : N) :
  k ≠ "__proto__" →
  o !! k = Some (JsObject.Number v) →
  JsNumber.keeps ops v (amounts k l) →
  accumulate l o !! k
  = Some (JsObject.Number (fold_left (JsNumber.add ops) (amounts k l) v)).
Proof.
  intros Hp. revert o v. induction l as [|x l IH]; intros o v Hk Hkeeps.
  - done.
  - simpl. rewrite filter_cons in *.
    destruct (decide (key x = k)) as [Hx|Hx].
    + rewrite fmap_cons in *. simpl in *. destruct Hkeeps as [Hv Hkeeps].
      apply IH; [|done].
      rewrite Hx, (get_own o k _ Hk). simpl. rewrite Hv.
      by apply set_lookup_eq.
    + apply IH; [|done]. by rewrite set_lookup_ne.
Qed.

(** A name that the object neither owns nor inherits holds, after the
    loop, the sum of the amounts of the elements with that key, added up
    from [0] in the order of the list; it is not set when there is no
    such element. *)
Lemma accumulate_lookup (l : list B) (o : gmap string (JsObject.Value N))
    (k : string) :
  k ∉ JsObject.prototypeKeys →
  o !! k = None →
  JsNumber.keeps ops (JsNumber.zero ops) (amounts k l) →
  accumulate l o !! k
  = if decide (k ∈ key <$> l)
    then Some (JsObject.Number (JsNumber.sum ops (amounts k l)))
    else None.
Proof.
  intros Hout.
  assert (Hp : k ≠ "__proto__").
  { intros ->. apply Hout, proto_prototype_key. }
  revert o. induction l as [|x l IH]; intros o Hk Hkeeps.
  - done.
  - cbn [fold_left]. rewrite filter_cons in *.
    destruct (decide (key x = k)) as [Hx|Hx].
    + rewrite decide_True by (rewrite fmap_cons, elem_of_cons; by left).
      rewrite fmap_cons in *. destruct Hkeeps as [_ Hkeeps].
      unfold JsNumber.sum. cbn [fold_left].
      apply accumulate_running; [done| |done].
      rewrite Hx, (get_fresh o k Hk Hout). simpl.
      by apply set_lookup_eq.
    + rewrite IH; [|by rewrite set_lookup_ne|done].
      apply decide_ext. rewrite fmap_cons, elem_of_cons. split; [tauto|].
      intros [H|H]; [congruence|done].
Qed.

End ObjectFold.

(** No decimal numeral is the name of a property of [Object.prototype]. *)
Lemma pretty_N_go_head (c : Ascii.ascii) :
  (∀ d, pretty_N_char d ≠ c) →
  ∀ x s, (∀ s', s ≠ String c s') → ∀ s', pretty_N_go x s ≠ String c s'.
Proof.
  intros Hc x. induction (N.lt_wf_0 x) as [x _ IH]; intros s Hs.
  assert (x = 0 ∨ 0 < x)%N as [->|Hx] by lia.
  - by rewrite pretty_N_go_0.
  - rewrite pretty_N_go_step by done. apply IH.
    { by apply N.div_lt. }
    intros s' [= Hd _]. by apply Hc in Hd.
Qed.

Lemma pretty_nat_head (c : Ascii.ascii) (n : nat) (s' : string) :
  (∀ d, pretty_N_char d ≠ c) → pretty n ≠ String c s'.
Proof.
  intros Hc. unfold pretty, pretty_nat, pretty, pretty_N.
  case_decide.
  - intros [= Hd _]. by apply (Hc 0%N).
  - by apply pretty_N_go_head.
Qed.

Lemma pretty_nat_not_prototype_key (n : nat) :
  pretty n ∉ JsObject.prototypeKeys.
Proof.
  unfold JsObject.prototypeKeys. rewrite !not_elem_of_cons.
  repeat split; try apply not_elem_of_nil;
    apply pretty_nat_head; intros d; unfold pretty_N_char;
    repeat case_match; discriminate.
Qed.

(** ** The dashboard reducers *)

Section Dashboard.

Context {Timestamp TimeZone Num : Type}.
Variable getDate : TimeZone → Timestamp → nat.
Variable numbers : JsNumber.Ops Num.
Variable objectText : string → string.

Abbreviation Tx := (DashboardComponent.Transaction Timestamp Num).
Abbreviation mkTx := (@DashboardComponent.Build_Transaction Timestamp Num).
Abbreviation typeOf := (@DashboardComponent.transactionType Timestamp Num).
Abbreviation priceOf := (@DashboardComponent.totalPrice Timestamp Num).
Abbreviation dayOf tz :=
  (λ tr : Tx, getDate tz (DashboardComponent.createdAt tr)).
Abbreviation typeCounts :=
  (DashboardComponent.typeCounts (Timestamp := Timestamp) numbers objectText).
Abbreviation amountByType :=
  (DashboardComponent.amountByType (Timestamp := Timestamp) numbers
     objectText).
Abbreviation processChartData :=
  (DashboardComponent.processChartData (Timestamp := Timestamp) numbers
     objectText).
Abbreviation dailyTotals :=
  (DashboardComponent.dailyTotals getDate numbers objectText).
Abbreviation processMonthlyData :=
  (DashboardComponent.processMonthlyData getDate numbers objectText).
Abbreviation ofType := (@DashboardComponent.ofType Timestamp Num).
Abbreviation onDay := (DashboardComponent.onDay (Num := Num) getDate).
Abbreviation total :=
  (DashboardComponent.total (Timestamp := Timestamp) numbers).
Abbreviation zero := (JsNumber.zero numbers).
Abbreviation plus := (JsNumber.add numbers).

Lemma chartTotals_split (txs : list Tx)
    (acc : gmap string (JsObject.Value Z)
           * gmap string (JsObject.Value Num)) :
  fold_left (DashboardComponent.chartStep numbers objectText) txs acc
  = (fold_left
       (λ o tr, JsObject.set o (typeOf tr)
          (JsObject.orZeroPlus JsNumber.integers objectText
             (JsObject.get o (typeOf tr)) 1)) txs acc.1,
     fold_left
       (λ o tr, JsObject.set o (typeOf tr)
          (JsObject.orZeroPlus numbers objectText
             (JsObject.get o (typeOf tr)) (priceOf tr))) txs acc.2).
Proof.
  revert acc. induction txs as [|tr txs IH]; intros [counts amounts]; simpl.
  - done.
  - by rewrite IH.
Qed.

Lemma typeCounts_fold (txs : list Tx) :
  typeCounts txs
  = fold_left
      (λ o tr, JsObject.set o (typeOf tr)
         (JsObject.orZeroPlus JsNumber.integers objectText
            (JsObject.get o (typeOf tr)) 1)) txs ∅.
Proof.
  unfold DashboardComponent.typeCounts, DashboardComponent.chartTotals.
  by rewrite chartTotals_split.
Qed.

Lemma amountByType_fold (txs : list Tx) :
  amountByType txs
  = fold_left
      (λ o tr, JsObject.set o (typeOf tr)
         (JsObject.orZeroPlus numbers objectText
            (JsObject.get o (typeOf tr)) (priceOf tr))) txs ∅.
Proof.
  unfold DashboardComponent.amountByType, DashboardComponent.chartTotals.
  by rewrite chartTotals_split.
Qed.

Lemma typeCounts_lookup (txs : list Tx) (type : string) :
  type ∉ JsObject.prototypeKeys →
  typeCounts txs !! type =
  if decide (type ∈ typeOf <$> txs)
  then Some (JsObject.Number (Z.of_nat (length (ofType type txs))))
  else None.
Proof.
  intros Hout. rewrite typeCounts_fold.
  rewrite (accumulate_lookup JsNumber.integers objectText typeOf (λ _, 1))
    by (done || apply integers_keeps).
  by rewrite count_of_ones.
Qed.


Lemma onDay_filter tz (txs : list Tx) (day : nat) :
  filter (λ tr, pretty (dayOf tz tr) = pretty day) txs = onDay tz day txs.
Proof.
  apply list_filter_iff. intros tr. split.
  - apply (inj pretty).
  - by intros ->.
Qed.

Lemma dailyTotals_lookup tz (txs : list Tx) (day : nat) :
  JsNumber.keeps numbers zero (priceOf <$> onDay tz day txs) →
  dailyTotals tz txs !! pretty day =
  if decide (pretty day ∈ (λ tr, pretty (dayOf tz tr)) <$> txs)
  then Some (JsObject.Number (total (onDay tz day txs)))
  else None.
Proof.
  intros Hkeeps.
  unfold DashboardComponent.dailyTotals, DashboardComponent.monthlyStep.
  rewrite (accumulate_lookup numbers objectText
             (λ tr, pretty (dayOf tz tr)) priceOf);
    [|apply pretty_nat_not_prototype_key|done|by rewrite onDay_filter].
  by rewrite onDay_filter.
Qed.

Lemma pretty_day_elem_of tz (txs : list Tx) (day : nat) :
  pretty day ∈ (λ tr, pretty (dayOf tz tr)) <$> txs ↔ day ∈ dayOf tz <$> txs.
Proof.
  rewrite !list_elem_of_fmap. split.
  - intros (tr & Heq & Hin). exists tr. split; [|done].
    by apply (inj pretty) in Heq.
  - intros (tr & -> & Hin). by exists tr.
Qed.

(** The points of a series are the own properties of the object. *)
Lemma series_elem_of {N} (f : string → string)
    (o : gmap string (JsObject.Value N)) (pt : ChartPoint N) :
  pt ∈ DashboardComponent.series f o ↔
  ∃ k v, o !! k = Some v ∧ pt = {| name := f k; value := v |}.
Proof.
  unfold DashboardComponent.series. rewrite list_elem_of_fmap. split.
  - intros ([k v] & -> & Hin). apply elem_of_map_to_list in Hin. by exists k, v.
  - intros (k & v & Hk & ->). exists (k, v). split; [done|].
    by apply elem_of_map_to_list.
Qed.


(** C10. For every time zone of the client, list of transactions and day
    of the month: when some record falls on that day, taken from
    [createdAt] in the client's time zone, [dailyTotals] maps the day to
    the sum of the [totalPrice] of the records of that day, added up from
    0 in the order of the list by the addition of the runtime, provided
    [x || 0] leaves the running totals of that day as they are; a key
    that is the day of no record is not set.  The object and the series
    are empty on the empty list.  On three records on days 1, 1, 15 the
    object is [{1: 0 + p1 + p2, 15: 0 + p3}] for their prices [p1], [p2],
    [p3]. *)
Theorem daily_totals_by_day (tz : TimeZone) (txs : list Tx) (day : nat) :
  (day ∈ dayOf tz <$> txs →
     JsNumber.keeps numbers zero (priceOf <$> onDay tz day txs) →
     dailyTotals tz txs !! pretty day
       = Some (JsObject.Number (total (onDay tz day txs)))) ∧
  (day ∉ dayOf tz <$> txs → dailyTotals tz txs !! pretty day = None) ∧
  (∀ k : string,
     k ∉ (λ tr, pretty (dayOf tz tr)) <$> txs →
     dailyTotals tz txs !! k = None) ∧
  dailyTotals tz [] = ∅ ∧
  processMonthlyData tz [] = [] ∧
  (∀ tr1 tr2 tr3 : Tx,
     dayOf tz tr1 = 1%nat → dayOf tz tr2 = 1%nat → dayOf tz tr3 = 15%nat →
     JsNumber.keeps numbers zero [priceOf tr1; priceOf tr2] →
     dailyTotals tz [tr1; tr2; tr3]
       = {[ "1" := JsObject.Number
                     (plus (plus zero (priceOf tr1)) (priceOf tr2));
            "15" := JsObject.Number (plus zero (priceOf tr3)) ]}).
Proof.
  assert (Hother : ∀ k : string,
            k ∉ (λ tr, pretty (dayOf tz tr)) <$> txs →
            dailyTotals tz txs !! k = None).
  { intros k Hout.
    unfold DashboardComponent.dailyTotals, DashboardComponent.monthlyStep.
    by rewrite (accumulate_other numbers objectText
                  (λ tr, pretty (dayOf tz tr)) priceOf). }
  split; [|split; [|split; [|split; [|split]]]].
  - intros Hin Hkeeps. rewrite dailyTotals_lookup by done.
    by rewrite decide_True by by apply pretty_day_elem_of.
  - intros Hout. apply Hother. by rewrite pretty_day_elem_of.
  - exact Hother.
  - done.
  - done.
  - intros tr1 tr2 tr3 Hd1 Hd2 Hd3 (_ & Hkept & _).
    unfold DashboardComponent.dailyTotals, DashboardComponent.monthlyStep.
    cbn [fold_left]. rewrite Hd1, Hd2, Hd3.
    vm_compute in Hkept. vm_compute. rewrite Hkept. reflexivity.
Qed.

End Dashboard.

(** ** Instances on the stand-in calendar and on integral amounts *)



Lemma daily_totals_by_day_witness :
  let txs := [StandIn.transaction "SELL" 5 5;
              StandIn.transaction "SELL" 5 20;
              StandIn.transaction "PURCHASE" 7 339] in
  1%nat ∈ ((λ tr, StandIn.getDate 0 (DashboardComponent.createdAt tr))
             <$> txs) ∧
  JsNumber.keeps JsNumber.integers 0
    (@DashboardComponent.totalPrice Z Z
       <$> DashboardComponent.onDay StandIn.getDate 0 1 txs) ∧
  DashboardComponent.dailyTotals StandIn.getDate JsNumber.integers
    StandIn.objectText 0 txs !! "1" = Some (JsObject.Number 10) ∧
  DashboardComponent.dailyTotals StandIn.getDate JsNumber.integers
    StandIn.objectText 0 txs
  = {[ "1" := JsObject.Number 10; "15" := JsObject.Number 7 ]}.
Proof.
  intros txs.
  assert (Hin : 1%nat ∈ ((λ tr, StandIn.getDate 0
                                  (DashboardComponent.createdAt tr)) <$> txs))
    by (simpl; apply elem_of_cons; by left).
  assert (Hkeeps : JsNumber.keeps JsNumber.integers 0
            (@DashboardComponent.totalPrice Z Z
               <$> DashboardComponent.onDay StandIn.getDate 0 1 txs))
    by (vm_compute; tauto).
  assert (Hkeeps' : JsNumber.keeps JsNumber.integers 0 [5; 5])
    by (vm_compute; tauto).
  pose proof (daily_totals_by_day StandIn.getDate JsNumber.integers
                StandIn.objectText 0 txs 1) as H.
  split; [exact Hin|]. split; [exact Hkeeps|].
  split; [exact (proj1 H Hin Hkeeps)|].
  exact (proj2 (proj2 (proj2 (proj2 (proj2 H))))
           (StandIn.transaction "SELL" 5 5)
           (StandIn.transaction "SELL" 5 20)
           (StandIn.transaction "PURCHASE" 7 339)
           eq_refl eq_refl eq_refl Hkeeps').
Defined.

(** The day is the one of the client's time zone: a sale made at 23:00
    universal time on the first day is booked on day 1 by a client at
    offset 0 and on day 2 by a client two hours ahead. *)
Lemma dailyTotals_follows_time_zone :
  DashboardComponent.dailyTotals StandIn.getDate JsNumber.integers
    StandIn.objectText 0 [StandIn.transaction "SELL" 5 23]
  = {[ "1" := JsObject.Number 5 ]} ∧
  DashboardComponent.dailyTotals StandIn.getDate JsNumber.integers
    StandIn.objectText 2 [StandIn.transaction "SELL" 5 23]
  = {[ "2" := JsObject.Number 5 ]}.
Proof. split; vm_compute; reflexivity. Qed.

(** * Further properties of the session code *)

Section StorageTheory.

Context {Salt : Type}.
Variable AES_encrypt : Salt → string → string → string.
Variable AES_decrypt : string → string → Decrypted.

Abbreviation KEY := ApiService.ENCRYPTION_KEY.
Abbreviation save := (ApiService.encryptAndSaveToStorage AES_encrypt).
Abbreviation get := (ApiService.getFromStorageAndDecrypt AES_decrypt).
Abbreviation isAuthenticated := (ApiService.isAuthenticated AES_decrypt).
Abbreviation isAdmin := (ApiService.isAdmin AES_decrypt).
Abbreviation getHeader := (ApiService.getHeader AES_decrypt).
Abbreviation cipher_ok := (ApiService.cipher_correct AES_encrypt AES_decrypt).
Abbreviation login := (LoginComponent.login AES_encrypt).
Abbreviation logout := ApiService.logout.
Abbreviation canActivate := (GuardService.canActivate AES_decrypt).
Abbreviation toLogin url :=
  (Some {| commands := ["/login"]; queryParams := [("returnUrl", url)] |}).

(** X1. Writes are independent across keys and the last write wins: saving
    under one key changes no read of another key (so storing a role never
    changes [isAuthenticated], storing a token never changes [isAdmin]);
    a second save under the same key replaces the first entry, and the key
    then reads back as the second value. *)
Theorem save_frame_and_overwrite (st : gmap string string)
    (salt salt' : Salt) (key value value' : string) :
  (∀ key', key ≠ key' → get key' (save salt key value st) = get key' st) ∧
  (key ≠ "token" →
     isAuthenticated (save salt key value st) = isAuthenticated st) ∧
  (key ≠ "role" → isAdmin (save salt key value st) = isAdmin st) ∧
  save salt' key value' (save salt key value st) = save salt' key value' st ∧
  (cipher_ok →
     get key (save salt' key value' (save salt key value st)) = Some value').
Proof.
  split; [|split; [|split; [|split]]].
  - intros key' Hne. by apply get_save_ne.
  - intros Hne. unfold ApiService.isAuthenticated.
    by rewrite get_save_ne.
  - intros Hne. unfold ApiService.isAdmin. by rewrite get_save_ne.
  - unfold ApiService.encryptAndSaveToStorage, LocalStorage.setItem.
    apply insert_insert_eq.
  - intros Hc. by apply get_save_eq.
Qed.

Lemma logout_lookup (st : gmap string string) (key : string) :
  logout st !! key
  = if decide (key = "token" ∨ key = "role") then None else st !! key.
Proof.
  unfold ApiService.logout, ApiService.clearAuth, LocalStorage.removeItem.
  destruct (decide (key = "role")) as [->|Hr].
  - rewrite lookup_delete_eq. rewrite decide_True; [done|by right].
  - rewrite lookup_delete_ne by done.
    destruct (decide (key = "token")) as [->|Ht].
    + rewrite lookup_delete_eq. rewrite decide_True; [done|by left].
    + rewrite lookup_delete_ne by done.
      rewrite decide_False; [done|]. by intros [?|?].
Qed.

Lemma login_lookup salt_token salt_role token role
    (st : gmap string string) (key : string) :
  login salt_token salt_role token role st !! key
  = if decide (key = "role") then Some (AES_encrypt salt_role role KEY)
    else if decide (key = "token")
         then Some (AES_encrypt salt_token token KEY)
         else st !! key.
Proof.
  unfold LoginComponent.login, ApiService.encryptAndSaveToStorage,
    LocalStorage.setItem.
  rewrite !lookup_insert. repeat case_decide; try done; congruence.
Qed.

(** X2. [logout] removes the two credential entries and nothing else; it
    is idempotent; it erases a login completely (logging in and then out
    gives the storage that logging out alone gives); and a login replaces
    whatever session was stored (logging in after a logout gives the
    storage that logging in directly gives). *)
Theorem logout_erases_session (st : gmap string string)
    (salt_token salt_role : Salt) (token role : string) :
  (∀ key, key ≠ "token" → key ≠ "role" → logout st !! key = st !! key) ∧
  logout (logout st) = logout st ∧
  logout (login salt_token salt_role token role st) = logout st ∧
  login salt_token salt_role token role (logout st)
    = login salt_token salt_role token role st ∧
  (st !! "token" = None → st !! "role" = None → logout st = st).
Proof.
  split; [|split; [|split; [|split]]].
  - intros key Ht Hr. rewrite logout_lookup.
    rewrite decide_False; [done|]. by intros [?|?].
  - apply map_eq. intros key. rewrite !logout_lookup. by case_decide.
  - apply map_eq. intros key. rewrite !logout_lookup, login_lookup.
    case_decide as Hk; [done|].
    rewrite !decide_False; [done|..]; intros ->; apply Hk; auto.
  - apply map_eq. intros key. rewrite !login_lookup, logout_lookup.
    destruct (decide (key = "role")) as [->|Hr]; [done|].
    destruct (decide (key = "token")) as [->|Ht]; [done|].
    rewrite decide_False; [done|]. by intros [?|?].
  - intros Ht Hr. apply map_eq. intros key. rewrite logout_lookup.
    case_decide as Hk; [|done]. by destruct Hk as [->| ->].
Qed.

(** X3. The [Authorization] header follows the session: after a login
    with token [t] it is [Bearer t], whatever the role; after a logout, or
    whenever no token entry is stored, it is [Bearer null]; and it is
    decided by the token entry alone. *)
Theorem getHeader_follows_session (st : gmap string string) :
  (cipher_ok → ∀ salt_token salt_role token role,
     getHeader (login salt_token salt_role token role st)
     = "Bearer " +:+ token) ∧
  getHeader (logout st) = "Bearer null" ∧
  (st !! "token" = None → getHeader st = "Bearer null") ∧
  (∀ st' : gmap string string,
     st !! "token" = st' !! "token" → getHeader st = getHeader st').
Proof.
  split; [|split; [|split]].
  - intros Hc s1 s2 t r. unfold ApiService.getHeader.
    by rewrite (get_ciphertext AES_encrypt AES_decrypt "token" s1 t _ Hc
                  (login_token AES_encrypt s1 s2 t r st)).
  - unfold ApiService.getHeader.
    by rewrite get_unfold, logout_token.
  - intros Hk. unfold ApiService.getHeader. by rewrite get_unfold, Hk.
  - intros st' Hk. unfold ApiService.getHeader.
    by rewrite (get_same_entry AES_decrypt "token" st st').
Qed.

End StorageTheory.

(** * Further properties of the guard, the routes and the login form *)

Section AccessTheory.

Context {Salt : Type}.
Variable AES_encrypt : Salt → string → string → string.
Variable AES_decrypt : string → string → Decrypted.

Abbreviation KEY := ApiService.ENCRYPTION_KEY.
Abbreviation get := (ApiService.getFromStorageAndDecrypt AES_decrypt).
Abbreviation isAuthenticated := (ApiService.isAuthenticated AES_decrypt).
Abbreviation isAdmin := (ApiService.isAdmin AES_decrypt).
Abbreviation cipher_ok := (ApiService.cipher_correct AES_encrypt AES_decrypt).
Abbreviation login := (LoginComponent.login AES_encrypt).
Abbreviation handleSubmit := (LoginComponent.handleSubmit AES_encrypt).
Abbreviation logout := ApiService.logout.
Abbreviation canActivate := (GuardService.canActivate AES_decrypt).
Abbreviation allowedPaths := (AppRoutes.allowedPaths AES_decrypt).
Abbreviation toLogin url :=
  (Some {| commands := ["/login"]; queryParams := [("returnUrl", url)] |}).

Lemma canActivate_flags (requiresAdmin : option bool) (url : string)
    (st : gmap string string) :
  canActivate requiresAdmin url st
  = if (if default false requiresAdmin then isAdmin st
        else isAuthenticated st)
    then (true, None) else (false, toLogin url).
Proof.
  unfold GuardService.canActivate.
  by destruct (default false requiresAdmin),
       (isAdmin st), (isAuthenticated st).
Qed.

(** X4. [AppComponent.logOut] ends the session for every storage: it
    navigates to the login view, [isAuth] and [isAdmin] are false
    afterwards, and the guard then denies every route, admin-only or not,
    sending each requested URL to the login view as the return path. *)
Theorem logOut_closes_session (st : gmap string string) :
  let result := AppComponent.logOut st in
  result.2 = Some {| commands := ["/login"]; queryParams := [] |} ∧
  AppComponent.isAuth AES_decrypt result.1 = false ∧
  AppComponent.isAdmin AES_decrypt result.1 = false ∧
  (∀ requiresAdmin url,
     canActivate requiresAdmin url result.1 = (false, toLogin url)).
Proof.
  simpl.
  assert (Hauth : isAuthenticated (logout st) = false).
  { apply (isAuthenticated_no_token AES_decrypt), logout_token. }
  assert (Hadm : isAdmin (logout st) = false).
  { apply (isAdmin_no_role AES_decrypt), logout_role. }
  split; [done|]. split; [exact Hauth|]. split; [exact Hadm|].
  intros requiresAdmin url. rewrite canActivate_flags, Hauth, Hadm.
  by destruct (default false requiresAdmin).
Qed.

(** X5. A login form submitted with both fields filled in and answered
    with status 200 and a non-empty token stores the session and navigates
    to the dashboard, which the guard then admits; admin-only routes are
    admitted afterwards exactly when the role of the response is ADMIN.
    A submission with an empty field, a rejected request, or a response
    with another status changes nothing and navigates nowhere. *)
Theorem handleSubmit_opens_session (salt_token salt_role : Salt)
    (email password : string)
    (response : option LoginComponent.LoginResponse)
    (st : gmap string string) :
  let result := handleSubmit salt_token salt_role email password response st in
  (cipher_ok → email ≠ "" → password ≠ "" →
   ∀ r, response = Some r → LoginComponent.status r = 200 →
        LoginComponent.token r ≠ "" →
     result.2 = Some {| commands := ["/dashboard"]; queryParams := [] |} ∧
     canActivate None "/dashboard" result.1 = (true, None) ∧
     isAuthenticated result.1 = true ∧
     isAdmin result.1 = bool_decide (LoginComponent.role r = "ADMIN") ∧
     (∀ url, (canActivate (Some true) url result.1).1
             = bool_decide (LoginComponent.role r = "ADMIN"))) ∧
  (email = "" ∨ password = "" ∨ response = None ∨
   (∃ r, response = Some r ∧ LoginComponent.status r ≠ 200) →
     result = (st, None)).
Proof.
  simpl. split.
  - intros Hc Hemail Hpass r -> Hstatus Htoken.
    unfold LoginComponent.handleSubmit.
    rewrite !bool_decide_eq_false_2 by done. simpl.
    rewrite Hstatus. simpl.
    assert (Hauth : isAuthenticated
              (login salt_token salt_role (LoginComponent.token r)
                 (LoginComponent.role r) st) = true).
    { apply (isAuthenticated_ciphertext AES_encrypt AES_decrypt salt_token
               (LoginComponent.token r)); [done|done|].
      apply login_token. }
    assert (Hadm : isAdmin
              (login salt_token salt_role (LoginComponent.token r)
                 (LoginComponent.role r) st)
              = bool_decide (LoginComponent.role r = "ADMIN")).
    { apply (isAdmin_ciphertext AES_encrypt AES_decrypt salt_role);
        [done|]. apply login_role. }
    split; [done|]. split.
    { rewrite canActivate_flags. simpl. by rewrite Hauth. }
    split; [exact Hauth|]. split; [exact Hadm|].
    intros url. rewrite canActivate_flags. simpl. rewrite Hadm.
    by case_bool_decide.
  - unfold LoginComponent.handleSubmit.
    intros [->|[->|[->|(r & -> & Hstatus)]]].
    + done.
    + by rewrite orb_true_r.
    + by destruct (_ || _).
    + destruct (_ || _); [done|].
      by rewrite (proj2 (Z.eqb_neq _ _) Hstatus).
Qed.

(** X6. Which routes can be entered is decided by the two session
    predicates, for every storage: the login and register pages and the
    redirect of the empty path always; the seven management routes
    (category, supplier, product and their add and edit forms) exactly
    when [isAdmin] holds; the six other pages (purchase, sell, the
    transaction list and details, profile, dashboard) exactly when
    [isAuthenticated] holds. *)
Theorem allowedPaths_by_session (st : gmap string string) :
  allowedPaths st
  = (["login"; "register"]
    ++ (if isAdmin st
        then ["category"; "supplier"; "edit-supplier/:supplierId";
              "add-supplier"; "product"; "edit-product/:productId";
              "add-product"]
        else [])
    ++ (if isAuthenticated st
        then ["purchase"; "sell"; "transaction";
              "transaction/:transactionId"; "profile"; "dashboard"]
        else [])
    ++ [""])%list.
Proof.
  unfold AppRoutes.allowedPaths.
  rewrite (list_filter_iff _
             (λ r, (if AppRoutes.guarded r
                    then if default false (AppRoutes.requiresAdmin r)
                         then isAdmin st else isAuthenticated st
                    else true) = true)).
  - by destruct (isAdmin st), (isAuthenticated st).
  - intros r. unfold AppRoutes.activate.
    destruct (AppRoutes.guarded r); [|done].
    rewrite canActivate_flags.
    by destruct (default false (AppRoutes.requiresAdmin r)),
         (isAdmin st), (isAuthenticated st).
Qed.

(** X7. The guard reads one entry per decision: on an admin-only route
    the decision is the same for any two storages with the same role
    entry, on every other route for any two storages with the same token
    entry.  So a stored ADMIN role opens the admin-only routes even when
    the token entry is removed, while the other guarded routes are then
    closed. *)
Theorem canActivate_reads_one_entry (st st' : gmap string string)
    (url : string) :
  (st !! "role" = st' !! "role" →
     canActivate (Some true) url st = canActivate (Some true) url st') ∧
  (st !! "token" = st' !! "token" →
     ∀ requiresAdmin, requiresAdmin ≠ Some true →
       canActivate requiresAdmin url st = canActivate requiresAdmin url st') ∧
  (isAdmin st = true →
     canActivate (Some true) url (delete "token" st) = (true, None) ∧
     canActivate None url (delete "token" st) = (false, toLogin url)).
Proof.
  split; [|split].
  - intros Hk. rewrite !canActivate_flags. simpl.
    unfold ApiService.isAdmin.
    by rewrite (get_same_entry AES_decrypt "role" st st').
  - intros Hk requiresAdmin Hne. rewrite !canActivate_flags.
    assert (Hflag : default false requiresAdmin = false)
      by (by destruct requiresAdmin as [[|]|]).
    rewrite Hflag. unfold ApiService.isAuthenticated.
    by rewrite (get_same_entry AES_decrypt "token" st st').
  - intros Hadm. rewrite !canActivate_flags. simpl.
    assert (Hadm' : isAdmin (delete "token" st) = isAdmin st).
    { unfold ApiService.isAdmin.
      rewrite (get_same_entry AES_decrypt "role" (delete "token" st) st);
        [done|]. by rewrite lookup_delete_ne. }
    rewrite Hadm', Hadm.
    by rewrite (isAuthenticated_no_token AES_decrypt)
      by apply lookup_delete_eq.
Qed.

End AccessTheory.

(** * Further properties of the pagination *)

Section PagingTheory.

Context {A : Type}.

(** Cutting a list into consecutive chunks of [k] elements and
    concatenating enough of them gives the list back. *)
Lemma chunks_take (k m : nat) (l : list A) :
  concat ((λ i : nat, take k (drop (i * k) l)) <$> seq 0 m)
  = take (m * k) l.
Proof.
  induction m as [|m IH]; [done|].
  rewrite seq_S, fmap_app, concat_app, IH. simpl.
  rewrite app_nil_r, take_take_drop. f_equal. lia.
Qed.

Lemma chunks_concat (k m : nat) (l : list A) :
  (length l ≤ m * k)%nat →
  concat ((λ i : nat, take k (drop (i * k) l)) <$> seq 0 m) = l.
Proof. intros Hlen. rewrite chunks_take. by apply take_ge. Qed.

Lemma seq_pages (pages : Z) :
  Js.array_from pages (λ i, i + 1)
  = (λ i : nat, Z.of_nat i + 1) <$> seq 0 (Z.to_nat pages).
Proof. done. Qed.

Lemma page_chunk (l : list A) (size : Z) (i : nat) :
  0 < size →
  Js.slice l ((Z.of_nat i + 1 - 1) * size) ((Z.of_nat i + 1) * size)
  = take (Z.to_nat size) (drop (i * Z.to_nat size) l).
Proof.
  intros Hsize. rewrite slice_take_drop by nia. f_equal; [f_equal; lia|].
  f_equal. nia.
Qed.

Lemma pages_concat (l : list A) (size : Z) :
  0 < size →
  concat ((λ p, Js.slice l ((p - 1) * size) (p * size))
            <$> Js.array_from (Js.ceil_div (Z.of_nat (length l)) size)
                  (λ i, i + 1))
  = l.
Proof.
  intros Hsize. rewrite seq_pages, <- list_fmap_compose.
  pose proof (ceil_div_bounds (Z.of_nat (length l)) size Hsize) as Hb.
  rewrite <- (chunks_concat (Z.to_nat size)
                (Z.to_nat (Js.ceil_div (Z.of_nat (length l)) size)) l)
    at 2 by nia.
  f_equal. apply list_fmap_ext. intros _ i _. simpl. by apply page_chunk.
Qed.

Lemma page_nonempty (l : list A) (size p : Z) :
  0 < size → 1 ≤ p ≤ Js.ceil_div (Z.of_nat (length l)) size →
  0 < Z.of_nat (length (Js.slice l ((p - 1) * size) (p * size))) ≤ size.
Proof.
  intros Hsize Hp.
  pose proof (ceil_div_bounds (Z.of_nat (length l)) size Hsize) as Hb.
  rewrite slice_length by nia. nia.
Qed.

(** X8. The pages that the selector offers partition the transaction
    list.  After a load with a positive page size, every page number shown
    by the pagination component, once passed to [onPageChange] with the
    same list, gives a non-empty page of at most [itemsPerPage] items and
    the same page count; and the pages of all offered numbers, in order,
    concatenate to the whole list: no item is lost or shown twice. *)
Theorem transaction_pages_partition (items : option (list A))
    (c : TransactionComponent.t A) :
  0 < TransactionComponent.itemsPerPage c →
  let all := default [] items in
  let loaded := TransactionComponent.loadTransactions (Next items) c in
  let selector :=
    {| PaginationComponent.currentPage :=
         TransactionComponent.currentPage loaded;
       PaginationComponent.totalPages :=
         TransactionComponent.totalPages loaded |} in
  let page p :=
    TransactionComponent.transactions
      (TransactionComponent.onPageChange p (Next items) loaded) in
  concat (page <$> PaginationComponent.pageNumbers selector) = all ∧
  (∀ p, p ∈ PaginationComponent.pageNumbers selector →
        page p ≠ [] ∧
        Z.of_nat (length (page p)) ≤ TransactionComponent.itemsPerPage c ∧
        TransactionComponent.totalPages
          (TransactionComponent.onPageChange p (Next items) loaded)
        = TransactionComponent.totalPages loaded).
Proof.
  intros Hsize all loaded selector page. split.
  - exact (pages_concat all _ Hsize).
  - intros p Hin.
    assert (Hp : 1 ≤ p ≤ Js.ceil_div (Z.of_nat (length all))
                          (TransactionComponent.itemsPerPage c)).
    { unfold PaginationComponent.pageNumbers in Hin.
      rewrite seq_pages in Hin. apply list_elem_of_fmap in Hin.
      destruct Hin as (i & -> & Hi). apply elem_of_seq in Hi.
      unfold selector, loaded, all in *. simpl in Hi. lia. }
    pose proof (page_nonempty all _ p Hsize Hp) as Hlen.
    split; [|split; [|done]].
    + intros Hnil. unfold page in Hnil. simpl in Hnil.
      fold all in Hnil. rewrite Hnil in Hlen. simpl in Hlen. lia.
    + unfold page. simpl. fold all. lia.
Qed.

(** X9. A search selects the first page and records the text of the
    input as the current filter, whatever the server answers.  When the
    request fails, the rows and the page count stay those shown before,
    with page 1 selected.  When it succeeds, the page count is that of the
    results and, for a positive page size, the rows are the first
    [itemsPerPage] results, so they are empty only when nothing was found,
    whatever page was shown before. *)
Theorem handleSearch_first_page (server : string → Response A)
    (c : TransactionComponent.t A) (s : TransactionComponent.SearchFields) :
  let answer := server (TransactionComponent.searchInput s) in
  let result := TransactionComponent.handleSearch server c s in
  TransactionComponent.valueToSearch result.2
    = TransactionComponent.searchInput s ∧
  TransactionComponent.searchInput result.2
    = TransactionComponent.searchInput s ∧
  TransactionComponent.currentPage result.1 = 1 ∧
  TransactionComponent.itemsPerPage result.1
    = TransactionComponent.itemsPerPage c ∧
  (answer = Failure →
     TransactionComponent.transactions result.1
       = TransactionComponent.transactions c ∧
     TransactionComponent.totalPages result.1
       = TransactionComponent.totalPages c) ∧
  (∀ items, answer = Next items →
     let found := default [] items in
     TransactionComponent.totalPages result.1
       = Js.ceil_div (Z.of_nat (length found))
           (TransactionComponent.itemsPerPage c) ∧
     (0 < TransactionComponent.itemsPerPage c →
        TransactionComponent.transactions result.1
          = take (Z.to_nat (TransactionComponent.itemsPerPage c)) found ∧
        (TransactionComponent.transactions result.1 = [] ↔ found = []))).
Proof.
  intros answer result.
  assert (Hres : result.1 = TransactionComponent.loadTransactions answer
            {| TransactionComponent.transactions :=
                 TransactionComponent.transactions c;
               TransactionComponent.currentPage := 1;
               TransactionComponent.totalPages :=
                 TransactionComponent.totalPages c;
               TransactionComponent.itemsPerPage :=
                 TransactionComponent.itemsPerPage c |}) by reflexivity.
  split; [done|]. split; [done|]. rewrite Hres. clear Hres.
  split; [by destruct answer|]. split; [by destruct answer|].
  split; [by intros ->|].
  intros items -> found. split; [done|]. intros Hsize.
  assert (Hpage : TransactionComponent.transactions
            (TransactionComponent.loadTransactions (Next items)
               {| TransactionComponent.transactions :=
                    TransactionComponent.transactions c;
                  TransactionComponent.currentPage := 1;
                  TransactionComponent.totalPages :=
                    TransactionComponent.totalPages c;
                  TransactionComponent.itemsPerPage :=
                    TransactionComponent.itemsPerPage c |})
            = take (Z.to_nat (TransactionComponent.itemsPerPage c)) found).
  { simpl. fold found. rewrite slice_take_drop by lia. simpl. f_equal. lia. }
  split; [exact Hpage|]. rewrite Hpage. clear Hpage. clearbody found.
  split.
  - destruct found as [|x found']; [done|].
    destruct (Z.to_nat (TransactionComponent.itemsPerPage c)) eqn:Hk;
      [lia|done].
  - intros ->. apply take_nil.
Qed.

End PagingTheory.

Section ProductPagingTheory.

Context {A : Type}.

(** X10. On a non-empty product list and a positive page size the product
    pages behave like the transaction pages: [fetchProducts] completes
    normally, every page number offered by the selector gives, through
    [onPageChange], a non-empty page and a normal completion, and the
    offered pages concatenate, in order, to the whole list. *)
Theorem product_pages_partition (x : A) (rest : list A)
    (c : ProductComponent.t A) :
  0 < ProductComponent.itemsPerPage c →
  let all := x :: rest in
  let loaded := ProductComponent.fetchProducts (Next (Some all)) c in
  let selector :=
    {| PaginationComponent.currentPage :=
         ProductComponent.currentPage loaded.1;
       PaginationComponent.totalPages :=
         ProductComponent.totalPages loaded.1 |} in
  let turn p := ProductComponent.onPageChange p (Next (Some all)) loaded.1 in
  loaded.2 = Js.Normal ∧
  concat ((λ p, ProductComponent.products (turn p).1)
            <$> PaginationComponent.pageNumbers selector) = all ∧
  (∀ p, p ∈ PaginationComponent.pageNumbers selector →
        (turn p).2 = Js.Normal ∧
        ProductComponent.products (turn p).1 ≠ [] ∧
        ProductComponent.currentPage (turn p).1 = p).
Proof.
  intros Hsize all loaded selector turn.
  split; [done|]. split.
  - exact (pages_concat all _ Hsize).
  - intros p Hin.
    assert (Hp : 1 ≤ p ≤ Js.ceil_div (Z.of_nat (length all))
                          (ProductComponent.itemsPerPage c)).
    { unfold PaginationComponent.pageNumbers in Hin.
      change (PaginationComponent.totalPages selector)
        with (Js.ceil_div (Z.of_nat (length all))
                (ProductComponent.itemsPerPage c)) in Hin.
      rewrite seq_pages in Hin. apply list_elem_of_fmap in Hin.
      destruct Hin as (i & -> & Hi). apply elem_of_seq in Hi. lia. }
    pose proof (page_nonempty all _ p Hsize Hp) as Hlen.
    split; [done|]. split; [|done].
    intros Hnil. unfold turn in Hnil. simpl in Hnil.
    fold all in Hnil. rewrite Hnil in Hlen. simpl in Hlen. lia.
Qed.

(** X11. Deleting a product reloads the list only when the user confirms
    and the server answers with status 200; otherwise the component is
    unchanged.  The reload keeps the current page number: when the
    remaining products exactly fill the pages before the current one (the
    deleted product was alone on the last page), the page shown is empty
    and the current page is one past [totalPages]. *)
Theorem handleProductDelete_keeps_page (confirmed : bool)
    (outcome : ProductComponent.DeleteOutcome)
    (x : A) (rest : list A) (c : ProductComponent.t A) :
  let remaining := x :: rest in
  let result :=
    ProductComponent.handleProductDelete confirmed outcome
      (Next (Some remaining)) c in
  (confirmed = false ∨ outcome ≠ ProductComponent.Deleted 200 →
     result = (c, Js.Normal)) ∧
  (confirmed = true → outcome = ProductComponent.Deleted 200 →
     result = ProductComponent.fetchProducts (Next (Some remaining)) c ∧
     ProductComponent.currentPage result.1
       = ProductComponent.currentPage c) ∧
  (confirmed = true → outcome = ProductComponent.Deleted 200 →
   0 < ProductComponent.itemsPerPage c →
   Z.of_nat (length remaining)
     = (ProductComponent.currentPage c - 1)
       * ProductComponent.itemsPerPage c →
     ProductComponent.products result.1 = [] ∧
     ProductComponent.totalPages result.1
       = ProductComponent.currentPage c - 1).
Proof.
  intros remaining result. split; [|split].
  - intros [->|Hout]; [done|].
    unfold result, ProductComponent.handleProductDelete.
    destruct confirmed; [|done]. destruct outcome as [status|]; [|done].
    destruct (Z.eqb_spec status 200) as [->|Hne]; [done|done].
  - intros -> ->. done.
  - intros -> -> Hsize Hlen.
    unfold result, ProductComponent.handleProductDelete. simpl.
    fold remaining.
    pose proof (ceil_div_bounds (Z.of_nat (length remaining)) _ Hsize)
      as Hb.
    assert (Hpages :
      Js.ceil_div (Z.of_nat (length remaining))
        (ProductComponent.itemsPerPage c)
      = ProductComponent.currentPage c - 1).
    { symmetry. apply ceil_div_unique; [done|]. nia. }
    split; [|exact Hpages].
    apply length_zero_iff_nil.
    assert (Hp : 1 ≤ ProductComponent.currentPage c).
    { assert (0 < Z.of_nat (length remaining)) by (simpl; lia). nia. }
    apply Nat2Z.inj. rewrite slice_length by nia. nia.
Qed.

End ProductPagingTheory.

(** * Further properties of the dashboard *)

Section SeriesTheory.

Context {N : Type}.

Lemma series_names (f : string → string)
    (o : gmap string (JsObject.Value N)) :
  name <$> DashboardComponent.series f o = f <$> (map_to_list o).*1.
Proof.
  unfold DashboardComponent.series.
  rewrite <- !list_fmap_compose. by apply list_fmap_ext.
Qed.

Lemma series_names_NoDup (f : string → string) `{!Inj (=) (=) f}
    (o : gmap string (JsObject.Value N)) :
  NoDup (name <$> DashboardComponent.series f o).
Proof.
  rewrite series_names. apply (NoDup_fmap_2 f), NoDup_fst_map_to_list.
Qed.

Lemma series_names_elem_of (f : string → string)
    (o : gmap string (JsObject.Value N)) (n : string) :
  n ∈ name <$> DashboardComponent.series f o ↔
  ∃ k, is_Some (o !! k) ∧ n = f k.
Proof.
  rewrite series_names, list_elem_of_fmap. split.
  - intros (k & -> & Hk). exists k. split; [|done].
    apply list_elem_of_fmap in Hk as ([k' v] & -> & Hkv).
    apply elem_of_map_to_list in Hkv. by exists v.
  - intros (k & [v Hv] & ->). exists k. split; [done|].
    apply list_elem_of_fmap. exists (k, v). split; [done|].
    by apply elem_of_map_to_list.
Qed.

End SeriesTheory.

Section CountTotals.

Abbreviation count_values l :=
  (foldr (λ (kv : string * JsObject.Value Z) (acc : Z),
            match kv.2 with
            | JsObject.Number n => n + acc
            | _ => acc
            end) 0 l).

Lemma count_values_perm (l l' : list (string * JsObject.Value Z)) :
  l ≡ₚ l' → count_values l = count_values l'.
Proof. induction 1; simpl; repeat case_match; lia. Qed.

Lemma count_values_insert (o : gmap string (JsObject.Value Z))
    (k : string) (v : Z) :
  count_values (map_to_list (<[k := JsObject.Number v]> o))
  = count_values (map_to_list o)
    - match o !! k with Some (JsObject.Number n) => n | _ => 0 end + v.
Proof.
  destruct (o !! k) as [x|] eqn:Hk.
  - rewrite <- (insert_delete_eq o k (JsObject.Number v)).
    rewrite (count_values_perm _ _
               (map_to_list_insert (delete k o) k (JsObject.Number v)
                  (lookup_delete_eq o k))).
    rewrite <- (count_values_perm _ _ (map_to_list_delete o k x Hk)).
    simpl. destruct x; lia.
  - rewrite (count_values_perm _ _
               (map_to_list_insert o k (JsObject.Number v) Hk)).
    simpl. lia.
Qed.

Lemma countTotal_series (f : string → string)
    (o : gmap string (JsObject.Value Z)) :
  DashboardComponent.countTotal (DashboardComponent.series f o)
  = count_values (map_to_list o).
Proof.
  unfold DashboardComponent.countTotal, DashboardComponent.series.
  induction (map_to_list o) as [|kv l IH]; [done|].
  rewrite fmap_cons. simpl. by rewrite IH.
Qed.

Context {B : Type}.
Variable objectText : string → string.
Variable key : B → string.

(** When no key is a name inherited from [Object.prototype], the object
    built by the counting loop holds numbers only, and they add up to the
    number of elements. *)
Lemma count_loop_total (l : list B) :
  (∀ x, x ∈ l → key x ∉ JsObject.prototypeKeys) →
  let o := fold_left
             (λ (o : gmap string (JsObject.Value Z)) (x : B),
                JsObject.set o (key x)
                  (JsObject.orZeroPlus JsNumber.integers objectText
                     (JsObject.get o (key x)) 1)) l ∅ in
  map_Forall (λ _ v, ∃ n, v = JsObject.Number n) o ∧
  count_values (map_to_list o) = Z.of_nat (length l).
Proof.
  induction l as [|x l IH] using rev_ind; intros Hkeys.
  - simpl. split; [apply map_Forall_empty|]. by rewrite map_to_list_empty.
  - rewrite fold_left_app, length_app. cbn [fold_left length].
    destruct IH as [Hnum Htotal].
    { intros y Hy. apply Hkeys, elem_of_app. by left. }
    set (o := fold_left _ l ∅) in *.
    assert (Hk : key x ∉ JsObject.prototypeKeys).
    { apply Hkeys, elem_of_app. right. by apply list_elem_of_singleton. }
    assert (Hp : key x ≠ "__proto__").
    { intros Heq. apply Hk. rewrite Heq. apply proto_prototype_key. }
    assert (Hstep : ∃ v,
              JsObject.set o (key x)
                (JsObject.orZeroPlus JsNumber.integers objectText
                   (JsObject.get o (key x)) 1)
              = <[key x := JsObject.Number v]> o ∧
              v = match o !! key x with
                  | Some (JsObject.Number n) => n
                  | _ => 0
                  end + 1).
    { unfold JsObject.set. rewrite bool_decide_eq_false_2 by done.
      destruct (o !! key x) as [v|] eqn:Hv.
      - destruct (Hnum _ _ Hv) as [n ->].
        rewrite (get_own o _ _ Hv). simpl. rewrite integers_orZero.
        by eexists.
      - rewrite (get_fresh o _ Hv Hk). simpl. by eexists. }
    destruct Hstep as (v & -> & Hv). split.
    + apply map_Forall_insert_2; [by eexists|done].
    + rewrite count_values_insert, Htotal, Hv. lia.
Qed.

End CountTotals.

Section DashboardCharts.

Context {Timestamp TimeZone Num : Type}.
Variable getDate : TimeZone → Timestamp → nat.
Variable numbers : JsNumber.Ops Num.
Variable objectText : string → string.

Abbreviation Tx := (DashboardComponent.Transaction Timestamp Num).
Abbreviation typeOf := (@DashboardComponent.transactionType Timestamp Num).
Abbreviation priceOf := (@DashboardComponent.totalPrice Timestamp Num).
Abbreviation dayOf tz :=
  (λ tr : Tx, getDate tz (DashboardComponent.createdAt tr)).
Abbreviation typeCounts :=
  (DashboardComponent.typeCounts (Timestamp := Timestamp) numbers objectText).
Abbreviation amountByType :=
  (DashboardComponent.amountByType (Timestamp := Timestamp) numbers
     objectText).
Abbreviation dailyTotals :=
  (DashboardComponent.dailyTotals getDate numbers objectText).
Abbreviation processChartData :=
  (DashboardComponent.processChartData (Timestamp := Timestamp) numbers
     objectText).
Abbreviation processMonthlyData :=
  (DashboardComponent.processMonthlyData getDate numbers objectText).
Abbreviation countTotal := DashboardComponent.countTotal.
Abbreviation dayLabel := (λ day : string, "Día " +:+ day).

Lemma typeCounts_total (txs : list Tx) :
  (∀ tr, tr ∈ txs → typeOf tr ∉ JsObject.prototypeKeys) →
  countTotal (processChartData txs).1 = Z.of_nat (length txs).
Proof.
  intros Hkeys. unfold DashboardComponent.processChartData. simpl.
  rewrite countTotal_series, typeCounts_fold.
  by apply (count_loop_total objectText typeOf).
Qed.

Lemma typeCounts_is_Some (txs : list Tx) (type : string) :
  is_Some (typeCounts txs !! type) ↔
  type ∈ typeOf <$> txs ∧ type ≠ "__proto__".
Proof.
  rewrite typeCounts_fold.
  rewrite (accumulate_is_Some JsNumber.integers objectText typeOf (λ _, 1)).
  rewrite lookup_empty. split; [|by right].
  intros [[? [=]]|H]; done.
Qed.

Lemma amountByType_is_Some (txs : list Tx) (type : string) :
  is_Some (amountByType txs !! type) ↔
  type ∈ typeOf <$> txs ∧ type ≠ "__proto__".
Proof.
  rewrite amountByType_fold.
  rewrite (accumulate_is_Some numbers objectText typeOf priceOf).
  rewrite lookup_empty. split; [|by right].
  intros [[? [=]]|H]; done.
Qed.

Lemma ofType_nonempty (txs : list Tx) (type : string) :
  type ∈ typeOf <$> txs →
  (1 ≤ length (DashboardComponent.ofType type txs))%nat.
Proof.
  intros Hin. apply list_elem_of_fmap in Hin as (tr & -> & Hin).
  assert (Htr : tr ∈ DashboardComponent.ofType (typeOf tr) txs).
  { unfold DashboardComponent.ofType. by apply list_elem_of_filter. }
  destruct (DashboardComponent.ofType (typeOf tr) txs); simpl; [|lia].
  by apply elem_of_nil in Htr.
Qed.

(** X12. The names of the points of the two charts by type are pairwise
    distinct and are exactly the types that occur in the transactions,
    [__proto__] excepted: transactions of that type have no point.  When
    no type is the name of a property of [Object.prototype], the chart of
    counts accounts for every transaction once: every value is a number,
    at least one, and the values add up to the number of transactions. *)
Theorem chart_by_type_accounts_for_all (txs : list Tx) :
  let charts := processChartData txs in
  NoDup (name <$> charts.1) ∧
  NoDup (name <$> charts.2) ∧
  (∀ type, type ∈ name <$> charts.1 ↔
           type ∈ typeOf <$> txs ∧ type ≠ "__proto__") ∧
  (∀ type, type ∈ name <$> charts.2 ↔
           type ∈ typeOf <$> txs ∧ type ≠ "__proto__") ∧
  ((∀ tr, tr ∈ txs → typeOf tr ∉ JsObject.prototypeKeys) →
     countTotal charts.1 = Z.of_nat (length txs) ∧
     (∀ point, point ∈ charts.1 →
        ∃ n, value point = JsObject.Number n ∧ 1 ≤ n)).
Proof.
  simpl. split; [|split; [|split; [|split]]].
  - apply (series_names_NoDup id).
  - apply (series_names_NoDup id).
  - intros type. rewrite series_names_elem_of.
    setoid_rewrite typeCounts_is_Some. split.
    + by intros (k & Hk & ->).
    + intros Hin. by exists type.
  - intros type. rewrite series_names_elem_of.
    setoid_rewrite amountByType_is_Some. split.
    + by intros (k & Hk & ->).
    + intros Hin. by exists type.
  - intros Hkeys. split; [by apply typeCounts_total|].
    intros point Hin. apply series_elem_of in Hin as (k & v & Hk & ->).
    simpl.
    assert (Hty : k ∈ typeOf <$> txs).
    { apply (typeCounts_is_Some txs k). by eexists. }
    assert (Hout : k ∉ JsObject.prototypeKeys).
    { apply list_elem_of_fmap in Hty as (tr & -> & Htr). by apply Hkeys. }
    rewrite (typeCounts_lookup numbers objectText txs k Hout) in Hk.
    rewrite decide_True in Hk by done. injection Hk as <-.
    eexists. split; [done|].
    pose proof (ofType_nonempty txs k Hty). lia.
Qed.

Lemma dailyTotals_is_Some tz (txs : list Tx) (k : string) :
  is_Some (dailyTotals tz txs !! k) ↔
  k ∈ (λ tr, pretty (dayOf tz tr)) <$> txs.
Proof.
  unfold DashboardComponent.dailyTotals, DashboardComponent.monthlyStep.
  rewrite (accumulate_is_Some numbers objectText
             (λ tr, pretty (dayOf tz tr)) priceOf).
  rewrite lookup_empty. split.
  - intros [[? [=]]|[H _]]. done.
  - intros Hin. right. split; [done|].
    apply list_elem_of_fmap in Hin as (tr & -> & _).
    intros Heq. apply (pretty_nat_not_prototype_key (dayOf tz tr)).
    rewrite Heq. apply proto_prototype_key.
Qed.

(** X14. The daily chart has one point per day on which a transaction
    falls in the client's time zone, named [Día d] for the day [d]: the
    names are pairwise distinct, there are never more points than
    transactions, and at most 31 when every day of the month lies between
    1 and 31. *)
Theorem monthly_chart_points (tz : TimeZone) (txs : list Tx) :
  let chart := processMonthlyData tz txs in
  NoDup (name <$> chart) ∧
  (∀ n, n ∈ name <$> chart ↔
        ∃ day, day ∈ dayOf tz <$> txs ∧ n = dayLabel (pretty day)) ∧
  (length chart ≤ length txs)%nat ∧
  ((∀ tr, tr ∈ txs → (1 ≤ dayOf tz tr ≤ 31)%nat) →
     (length chart ≤ 31)%nat).
Proof.
  simpl.
  assert (Hnd : NoDup (name <$> processMonthlyData tz txs)).
  { apply (series_names_NoDup dayLabel). }
  assert (Hnames : ∀ n, n ∈ name <$> processMonthlyData tz txs ↔
            ∃ day, day ∈ dayOf tz <$> txs ∧ n = dayLabel (pretty day)).
  { intros n. unfold DashboardComponent.processMonthlyData.
    rewrite series_names_elem_of.
    setoid_rewrite dailyTotals_is_Some. split.
    - intros (k & Hk & ->).
      apply list_elem_of_fmap in Hk as (tr & -> & Hin).
      exists (dayOf tz tr). split; [|done].
      apply list_elem_of_fmap. by exists tr.
    - intros (day & Hday & ->). exists (pretty day). split; [|done].
      apply list_elem_of_fmap in Hday as (tr & -> & Hin).
      apply list_elem_of_fmap. by exists tr. }
  split; [exact Hnd|]. split; [exact Hnames|]. split.
  - rewrite <- (length_fmap name).
    rewrite <- (length_fmap (λ tr, dayLabel (pretty (dayOf tz tr))) txs).
    apply submseteq_length, NoDup_submseteq; [exact Hnd|].
    intros n Hn. apply Hnames in Hn as (day & Hday & ->).
    apply list_elem_of_fmap in Hday as (tr & -> & Hin).
    apply list_elem_of_fmap. by exists tr.
  - intros Hrange. rewrite <- (length_fmap name).
    replace 31%nat
      with (length ((λ d : nat, dayLabel (pretty d)) <$> seq 1 31))
      by (by rewrite length_fmap, length_seq).
    apply submseteq_length, NoDup_submseteq; [exact Hnd|].
    intros n Hn. apply Hnames in Hn as (day & Hday & ->).
    apply list_elem_of_fmap in Hday as (tr & -> & Hin).
    apply list_elem_of_fmap. exists (dayOf tz tr). split; [done|].
    apply elem_of_seq. specialize (Hrange tr Hin). lia.
Qed.

End DashboardCharts.

Section DashboardSelection.

Context {Timestamp TimeZone Num : Type}.
Variable getDate : TimeZone → Timestamp → nat.
Variable numbers : JsNumber.Ops Num.
Variable objectText : string → string.
Variable parseInt : string → Num.

Abbreviation Tx := (DashboardComponent.Transaction Timestamp Num).
Abbreviation Dashboard := (@DashboardComponent.t Timestamp Num).
Abbreviation loadMonthlyData :=
  (DashboardComponent.loadMonthlyData getDate numbers objectText parseInt).
Abbreviation loadTransactions :=
  (DashboardComponent.loadTransactions (Timestamp := Timestamp) numbers
     objectText).
Abbreviation processChartData :=
  (DashboardComponent.processChartData (Timestamp := Timestamp) numbers
     objectText).
Abbreviation processMonthlyData :=
  (DashboardComponent.processMonthlyData getDate numbers objectText).

(** X15. [loadMonthlyData] makes no request and changes nothing unless
    both a month and a year are selected.  With both selected it requests
    the parsed month and year and keeps the selection, and then: when the
    request fails the component is left as it was, the error unhandled;
    when the answer has no [transactions] field the field of the
    component becomes [undefined], the callback raises a [TypeError] and
    the three charts stay as they were; when the answer carries a list,
    the list is stored and the three charts are recomputed from it.
    [loadTransactions] treats the three answers alike, except that it
    leaves the daily chart alone. *)
Theorem loadMonthlyData_selection (tz : TimeZone)
    (server : Num → Num → Response Tx) (c : Dashboard) :
  let result := loadMonthlyData tz server c in
  let month := parseInt (DashboardComponent.selectedMonth c) in
  let year := parseInt (DashboardComponent.selectedYear c) in
  (DashboardComponent.selectedMonth c = "" ∨
   DashboardComponent.selectedYear c = "" →
   result = (c, DashboardComponent.Completed, None)) ∧
  (DashboardComponent.selectedMonth c ≠ "" →
   DashboardComponent.selectedYear c ≠ "" →
   result.2 = Some (month, year) ∧
   DashboardComponent.selectedMonth result.1.1
     = DashboardComponent.selectedMonth c ∧
   DashboardComponent.selectedYear result.1.1
     = DashboardComponent.selectedYear c ∧
   (server month year = Failure →
      result.1 = (c, DashboardComponent.Unhandled)) ∧
   (server month year = Next None →
      result.1.2 = DashboardComponent.Threw ∧
      DashboardComponent.transactions result.1.1 = None ∧
      DashboardComponent.transactionTypeData result.1.1
        = DashboardComponent.transactionTypeData c ∧
      DashboardComponent.transactionAmountData result.1.1
        = DashboardComponent.transactionAmountData c ∧
      DashboardComponent.monthlyTransactionData result.1.1
        = DashboardComponent.monthlyTransactionData c) ∧
   (∀ data, server month year = Next (Some data) →
      result.1.2 = DashboardComponent.Completed ∧
      DashboardComponent.transactions result.1.1 = Some data ∧
      DashboardComponent.transactionTypeData result.1.1
        = (processChartData data).1 ∧
      DashboardComponent.transactionAmountData result.1.1
        = (processChartData data).2 ∧
      DashboardComponent.monthlyTransactionData result.1.1
        = processMonthlyData tz data)) ∧
  (loadTransactions Failure c = (c, DashboardComponent.Unhandled) ∧
   (loadTransactions (Next None) c).2 = DashboardComponent.Threw ∧
   DashboardComponent.transactions (loadTransactions (Next None) c).1
     = None ∧
   DashboardComponent.transactionTypeData (loadTransactions (Next None) c).1
     = DashboardComponent.transactionTypeData c ∧
   ∀ data,
     let loaded := loadTransactions (Next (Some data)) c in
     loaded.2 = DashboardComponent.Completed ∧
     DashboardComponent.transactions loaded.1 = Some data ∧
     DashboardComponent.transactionTypeData loaded.1
       = (processChartData data).1 ∧
     DashboardComponent.transactionAmountData loaded.1
       = (processChartData data).2 ∧
     DashboardComponent.monthlyTransactionData loaded.1
       = DashboardComponent.monthlyTransactionData c).
Proof.
  intros result month year. split; [|split].
  - unfold result, DashboardComponent.loadMonthlyData.
    intros [-> | ->]; [done|]. by rewrite orb_true_r.
  - intros Hmonth Hyear.
    unfold result, DashboardComponent.loadMonthlyData.
    rewrite !bool_decide_eq_false_2 by done. cbn [orb]. fold month year.
    destruct (server month year) as [[data|]|]; simpl.
    + do 5 (split; [done|]). by intros data' [= <-].
    + do 5 (split; [done|]). done.
    + do 5 (split; [done|]). done.
  - done.
Qed.

End DashboardSelection.


(** X16. The year selector offers ten years: the current year first, then
    each of the nine years before it in descending order, and no other
    year. *)
Theorem years_last_ten (currentYear : Z) :
  length (DashboardComponent.years currentYear) = 10%nat ∧
  (∀ i : nat, (i < 10)%nat →
     DashboardComponent.years currentYear !! i
     = Some (currentYear - Z.of_nat i)) ∧
  (∀ year, year ∈ DashboardComponent.years currentYear ↔
           currentYear - 9 ≤ year ≤ currentYear).
Proof.
  split; [done|]. split.
  - intros i Hi. do 10 (destruct i as [|i]; [reflexivity|]). lia.
  - intros year. unfold DashboardComponent.years, Js.array_from.
    rewrite list_elem_of_fmap. setoid_rewrite elem_of_seq. split.
    + intros (i & -> & Hi). simpl in Hi. lia.
    + intros Hy. exists (Z.to_nat (currentYear - year)). simpl. lia.
Qed.

(** * Further properties of the forms *)

Section SaleForm.

Context {A Num : Type}.
Variable parseInt : string → Z → Num.

Abbreviation handleSubmit := (SellComponent.handleSubmit (A:=A) parseInt).

(** X17. The sale form sends a request exactly when a product and a
    quantity are entered; the description is optional.  A response with
    status 200 shows the server's message and clears the three fields, so
    submitting again without new input sends nothing, whatever the server
    would answer.  A response with another status changes nothing; an
    error notification shows its message and keeps the fields.  The
    product list is never changed. *)
Theorem sale_form_submission
    (server : SellComponent.Body Num → SellComponent.Reply)
    (c : SellComponent.t A) :
  let result := handleSubmit server c in
  let body := {| SellComponent.bodyProductId := SellComponent.productId c;
                 SellComponent.bodyQuantity :=
                   parseInt (SellComponent.quantity c) 10;
                 SellComponent.bodyDescription :=
                   SellComponent.description c |} in
  SellComponent.products result.1 = SellComponent.products c ∧
  (SellComponent.productId c = "" ∨ SellComponent.quantity c = "" →
     result = (SellComponent.showMessage "Please fill all fields" c, None)) ∧
  (SellComponent.productId c ≠ "" → SellComponent.quantity c ≠ "" →
     result.2 = Some body ∧
     (∀ text, server body = SellComponent.Answer 200 text →
        SellComponent.productId result.1 = "" ∧
        SellComponent.description result.1 = "" ∧
        SellComponent.quantity result.1 = "" ∧
        SellComponent.message result.1 = text ∧
        ∀ server', (handleSubmit server' result.1).2 = None) ∧
     (∀ status text, server body = SellComponent.Answer status text →
        status ≠ 200 → result.1 = c) ∧
     (∀ e, server body = SellComponent.Rejected e →
        result.1 = SellComponent.showMessage
                     (errorText "Unable to sell a product" e) c)).
Proof.
  intros result body. unfold result, SellComponent.handleSubmit.
  fold body. split; [|split].
  - destruct (_ || _); [done|].
    destruct (server body) as [status text|e]; [|done].
    by destruct (status =? 200).
  - intros [-> | ->]; [done|]. by rewrite orb_true_r.
  - intros Hp Hq. rewrite !bool_decide_eq_false_2 by done. simpl.
    split; [|split; [|split]].
    + destruct (server body) as [status text|e]; [|done].
      by destruct (status =? 200).
    + intros text ->. simpl. repeat (split; [done|]). by intros server'.
    + intros status text -> Hne.
      by rewrite (proj2 (Z.eqb_neq _ _) Hne).
    + by intros e ->.
Qed.

End SaleForm.

Section SupplierForm.

Abbreviation slash := JsString.slash.
Abbreviation split := (JsString.split JsString.slash).
Abbreviation has_slash := (JsString.contains JsString.slash).

Lemma split_no_slash (s : string) : has_slash s = false → split s = [s].
Proof.
  induction s as [|c s IH]; simpl; [done|].
  intros [Hc Hs]%orb_false_iff. by rewrite Hc, IH.
Qed.

Lemma split_at_slash (a b : string) :
  has_slash a = false → split (a +:+ String slash b) = a :: split b.
Proof.
  induction a as [|c a IH]; simpl; [done|].
  intros [Hc Ha]%orb_false_iff. by rewrite Hc, IH.
Qed.

Lemma split_url_two (seg id : string) :
  has_slash seg = false → has_slash id = false →
  split ("/" +:+ seg +:+ "/" +:+ id) = [""; seg; id].
Proof.
  intros Hseg Hid.
  change ("/" +:+ seg +:+ "/" +:+ id)
    with ("" +:+ String slash (seg +:+ String slash id)).
  rewrite split_at_slash by done. rewrite split_at_slash by done.
  by rewrite split_no_slash.
Qed.

Lemma split_url_one (seg : string) :
  has_slash seg = false → split ("/" +:+ seg) = [""; seg].
Proof.
  intros Hseg.
  change ("/" +:+ seg) with ("" +:+ String slash seg).
  rewrite split_at_slash by done. by rewrite split_no_slash.
Qed.

Lemma fetchSupplier_mode (server : AddEditSupplierComponent.Request →
                                   AddEditSupplierComponent.Reply)
    (c : AddEditSupplierComponent.t) :
  AddEditSupplierComponent.isEditing
    (AddEditSupplierComponent.fetchSupplier server c)
  = AddEditSupplierComponent.isEditing c ∧
  AddEditSupplierComponent.supplierId
    (AddEditSupplierComponent.fetchSupplier server c)
  = AddEditSupplierComponent.supplierId c.
Proof.
  unfold AddEditSupplierComponent.fetchSupplier.
  destruct (server _) as [status n a|e]; [|done].
  by destruct (status =? 200).
Qed.

(** X18. The supplier form takes its mode from the URL.  Opened at
    [/segment/id], with a non-empty [id] and no further slash, it enters
    edit mode for [id], asks the server for that supplier, and a later
    valid submission sends an update for [id].  Opened at [/segment], with
    nothing after it or with only a trailing slash, it stays in creation
    mode, asks nothing, and a valid submission sends an addition. *)
Theorem supplier_form_mode
    (server server' : AddEditSupplierComponent.Request →
                      AddEditSupplierComponent.Reply)
    (seg id : string) :
  has_slash seg = false →
  let opened url :=
    AddEditSupplierComponent.ngOnInit url server
      AddEditSupplierComponent.init in
  let sent c := (AddEditSupplierComponent.handleSubmit server' c).1.2 in
  let filled c :=
    AddEditSupplierComponent.name c ≠ "" ∧
    AddEditSupplierComponent.address c ≠ "" in
  (has_slash id = false → id ≠ "" →
     let c := opened ("/" +:+ seg +:+ "/" +:+ id) in
     AddEditSupplierComponent.isEditing c = true ∧
     AddEditSupplierComponent.supplierId c = Some id ∧
     c = AddEditSupplierComponent.fetchSupplier server
           {| AddEditSupplierComponent.message := "";
              AddEditSupplierComponent.isEditing := true;
              AddEditSupplierComponent.supplierId := Some id;
              AddEditSupplierComponent.name := "";
              AddEditSupplierComponent.address := "" |} ∧
     (filled c →
        sent c = Some (AddEditSupplierComponent.UpdateSupplier (Some id)
                         (AddEditSupplierComponent.name c)
                         (AddEditSupplierComponent.address c)))) ∧
  (∀ url, url = "/" +:+ seg ∨ url = "/" +:+ seg +:+ "/" →
     let c := opened url in
     AddEditSupplierComponent.isEditing c = false ∧
     AddEditSupplierComponent.name c = "" ∧
     AddEditSupplierComponent.address c = "" ∧
     ∀ c', AddEditSupplierComponent.isEditing c' = false → filled c' →
       sent c' = Some (AddEditSupplierComponent.AddSupplier
                         (AddEditSupplierComponent.name c')
                         (AddEditSupplierComponent.address c'))).
Proof.
  intros Hseg opened sent filled.
  assert (Hsent : ∀ c, filled c →
    sent c = Some (if AddEditSupplierComponent.isEditing c
                   then AddEditSupplierComponent.UpdateSupplier
                          (AddEditSupplierComponent.supplierId c)
                          (AddEditSupplierComponent.name c)
                          (AddEditSupplierComponent.address c)
                   else AddEditSupplierComponent.AddSupplier
                          (AddEditSupplierComponent.name c)
                          (AddEditSupplierComponent.address c))).
  { intros c [Hn Ha]. unfold sent, AddEditSupplierComponent.handleSubmit.
    rewrite !bool_decide_eq_false_2 by done. simpl.
    destruct (server' _) as [status n a|e]; [|done].
    by destruct (status =? 200). }
  split.
  - intros Hid Hne c.
    assert (Hc : c = AddEditSupplierComponent.fetchSupplier server
           {| AddEditSupplierComponent.message := "";
              AddEditSupplierComponent.isEditing := true;
              AddEditSupplierComponent.supplierId := Some id;
              AddEditSupplierComponent.name := "";
              AddEditSupplierComponent.address := "" |}).
    { unfold c, opened, AddEditSupplierComponent.ngOnInit.
      rewrite split_url_two by done. simpl.
      by rewrite bool_decide_eq_false_2. }
    destruct (fetchSupplier_mode server
           {| AddEditSupplierComponent.message := "";
              AddEditSupplierComponent.isEditing := true;
              AddEditSupplierComponent.supplierId := Some id;
              AddEditSupplierComponent.name := "";
              AddEditSupplierComponent.address := "" |}) as [Hmode Hsid].
    rewrite <- Hc in Hmode, Hsid. simpl in Hmode, Hsid.
    split; [done|]. split; [done|]. split; [exact Hc|].
    intros Hfilled. by rewrite (Hsent c Hfilled), Hmode, Hsid.
  - intros url Hurl c.
    assert (Hc : AddEditSupplierComponent.isEditing c = false ∧
                 AddEditSupplierComponent.name c = "" ∧
                 AddEditSupplierComponent.address c = "").
    { unfold c, opened, AddEditSupplierComponent.ngOnInit.
      destruct Hurl as [-> | ->].
      - by rewrite split_url_one.
      - change ("/" +:+ seg +:+ "/") with ("/" +:+ seg +:+ "/" +:+ "").
        by rewrite split_url_two. }
    destruct Hc as (? & ? & ?). repeat (split; [done|]).
    intros c' Hmode Hfilled. by rewrite (Hsent c' Hfilled), Hmode.
Qed.

End SupplierForm.

(** * Instances of the further properties *)

Lemma save_frame_and_overwrite_witness :
  ApiService.cipher_correct StandIn.encrypt StandIn.decrypt ∧
  ApiService.getFromStorageAndDecrypt StandIn.decrypt "token"
    (ApiService.encryptAndSaveToStorage StandIn.encrypt () "token" "b"
       (ApiService.encryptAndSaveToStorage StandIn.encrypt () "token" "a" ∅))
  = Some "b".
Proof.
  split; [exact standin_cipher_correct|].
  apply (save_frame_and_overwrite StandIn.encrypt StandIn.decrypt ∅ () ()
           "token" "a" "b").
  exact standin_cipher_correct.
Defined.

Lemma logout_erases_session_witness :
  ApiService.logout (LoginComponent.login StandIn.encrypt () () "t" "USER" ∅)
  = ApiService.logout ∅.
Proof.
  apply (logout_erases_session StandIn.encrypt ∅ () () "t" "USER").
Defined.

Lemma getHeader_follows_session_witness :
  ApiService.cipher_correct StandIn.encrypt StandIn.decrypt ∧
  ApiService.getHeader StandIn.decrypt
    (LoginComponent.login StandIn.encrypt () () "t" "USER" ∅) = "Bearer t".
Proof.
  split; [exact standin_cipher_correct|].
  apply (getHeader_follows_session StandIn.encrypt StandIn.decrypt ∅).
  exact standin_cipher_correct.
Defined.

Lemma logOut_closes_session_witness :
  GuardService.canActivate StandIn.decrypt None "/dashboard"
    (AppComponent.logOut
       (LoginComponent.login StandIn.encrypt () () "t" "USER" ∅)).1
  = (false, Some {| commands := ["/login"];
                    queryParams := [("returnUrl", "/dashboard")] |}).
Proof.
  apply (logOut_closes_session StandIn.decrypt
           (LoginComponent.login StandIn.encrypt () () "t" "USER" ∅)).
Defined.

Lemma handleSubmit_opens_session_witness :
  let r := {| LoginComponent.status := 200; LoginComponent.token := "t";
              LoginComponent.role := "USER" |} in
  ApiService.cipher_correct StandIn.encrypt StandIn.decrypt ∧
  "a@b.c" ≠ "" ∧ "secret" ≠ "" ∧ LoginComponent.status r = 200 ∧
  LoginComponent.token r ≠ "" ∧
  GuardService.canActivate StandIn.decrypt None "/dashboard"
    (LoginComponent.handleSubmit StandIn.encrypt () () "a@b.c" "secret"
       (Some r) ∅).1
  = (true, None).
Proof.
  intros r.
  assert (He : "a@b.c" ≠ "") by done.
  assert (Hp : "secret" ≠ "") by done.
  assert (Ht : LoginComponent.token r ≠ "") by done.
  split; [exact standin_cipher_correct|].
  split; [exact He|]. split; [exact Hp|]. split; [reflexivity|].
  split; [exact Ht|].
  exact (proj1 (proj2 (proj1
    (handleSubmit_opens_session StandIn.encrypt StandIn.decrypt () ()
       "a@b.c" "secret" (Some r) ∅)
    standin_cipher_correct He Hp r eq_refl eq_refl Ht))).
Defined.

Lemma canActivate_reads_one_entry_witness :
  let st := LoginComponent.login StandIn.encrypt () () "t" "ADMIN" ∅ in
  ApiService.isAdmin StandIn.decrypt st = true ∧
  GuardService.canActivate StandIn.decrypt (Some true) "/category"
    (delete "token" st) = (true, None) ∧
  GuardService.canActivate StandIn.decrypt None "/profile"
    (delete "token" st)
  = (false, Some {| commands := ["/login"];
                    queryParams := [("returnUrl", "/profile")] |}).
Proof.
  intros st.
  assert (Hadm : ApiService.isAdmin StandIn.decrypt st = true)
    by (vm_compute; reflexivity).
  split; [exact Hadm|]. split.
  - exact (proj1 (proj2 (proj2
      (canActivate_reads_one_entry StandIn.decrypt st st "/category"))
      Hadm)).
  - exact (proj2 (proj2 (proj2
      (canActivate_reads_one_entry StandIn.decrypt st st "/profile"))
      Hadm)).
Defined.

Lemma transaction_pages_partition_witness :
  let c := {| TransactionComponent.transactions := [];
              TransactionComponent.currentPage := 1;
              TransactionComponent.totalPages := 0;
              TransactionComponent.itemsPerPage := 2 |} in
  let loaded :=
    TransactionComponent.loadTransactions (Next (Some ["a"; "b"; "c"])) c in
  0 < TransactionComponent.itemsPerPage c ∧
  concat
    ((λ p, TransactionComponent.transactions
             (TransactionComponent.onPageChange p
                (Next (Some ["a"; "b"; "c"])) loaded))
       <$> PaginationComponent.pageNumbers
             {| PaginationComponent.currentPage :=
                  TransactionComponent.currentPage loaded;
                PaginationComponent.totalPages :=
                  TransactionComponent.totalPages loaded |})
  = ["a"; "b"; "c"].
Proof.
  intros c loaded.
  assert (Hsize : 0 < TransactionComponent.itemsPerPage c) by (simpl; lia).
  split; [exact Hsize|].
  exact (proj1 (transaction_pages_partition (Some ["a"; "b"; "c"]) c Hsize)).
Defined.

Lemma handleSearch_first_page_witness :
  let server := λ text : string,
    if bool_decide (text = "sell") then Next (Some ["s1"; "s2"; "s3"])
    else Failure in
  let c := {| TransactionComponent.transactions := ["old"];
              TransactionComponent.currentPage := 4;
              TransactionComponent.totalPages := 5;
              TransactionComponent.itemsPerPage := 2 |} in
  let s := {| TransactionComponent.searchInput := "sell";
              TransactionComponent.valueToSearch := "" |} in
  let s' := {| TransactionComponent.searchInput := "buy";
               TransactionComponent.valueToSearch := "" |} in
  (server (TransactionComponent.searchInput s)
     = Next (Some ["s1"; "s2"; "s3"]) ∧
   0 < TransactionComponent.itemsPerPage c ∧
   TransactionComponent.transactions
     (TransactionComponent.handleSearch server c s).1 = ["s1"; "s2"]) ∧
  (server (TransactionComponent.searchInput s') = Failure ∧
   TransactionComponent.transactions
     (TransactionComponent.handleSearch server c s').1 = ["old"] ∧
   TransactionComponent.currentPage
     (TransactionComponent.handleSearch server c s').1 = 1).
Proof.
  intros server c s s'.
  assert (Hsize : 0 < TransactionComponent.itemsPerPage c) by (simpl; lia).
  assert (Hserver : server (TransactionComponent.searchInput s)
                    = Next (Some ["s1"; "s2"; "s3"])) by reflexivity.
  assert (Hfailure : server (TransactionComponent.searchInput s') = Failure)
    by reflexivity.
  split.
  - split; [exact Hserver|]. split; [exact Hsize|].
    exact (proj1 (proj2 (proj2 (proj2 (proj2 (proj2 (proj2
      (handleSearch_first_page server c s))))) _ Hserver) Hsize)).
  - split; [exact Hfailure|]. split.
    + exact (proj1 (proj1 (proj2 (proj2 (proj2 (proj2
        (handleSearch_first_page server c s'))))) Hfailure)).
    + exact (proj1 (proj2 (proj2 (handleSearch_first_page server c s')))).
Defined.

Lemma product_pages_partition_witness :
  let c := {| ProductComponent.products := [];
              ProductComponent.currentPage := 1;
              ProductComponent.totalPages := 0;
              ProductComponent.itemsPerPage := 2 |} in
  0 < ProductComponent.itemsPerPage c ∧
  (ProductComponent.fetchProducts (Next (Some ["a"; "b"; "c"])) c).2
  = Js.Normal.
Proof.
  intros c.
  assert (Hsize : 0 < ProductComponent.itemsPerPage c) by (simpl; lia).
  split; [exact Hsize|].
  exact (proj1 (product_pages_partition "a" ["b"; "c"] c Hsize)).
Defined.

Lemma handleProductDelete_keeps_page_witness :
  let c := {| ProductComponent.products := ["c"];
              ProductComponent.currentPage := 2;
              ProductComponent.totalPages := 2;
              ProductComponent.itemsPerPage := 2 |} in
  let result :=
    ProductComponent.handleProductDelete true (ProductComponent.Deleted 200)
      (Next (Some ["a"; "b"])) c in
  0 < ProductComponent.itemsPerPage c ∧
  Z.of_nat (length ["a"; "b"])
    = (ProductComponent.currentPage c - 1) * ProductComponent.itemsPerPage c ∧
  ProductComponent.products result.1 = [] ∧
  ProductComponent.totalPages result.1 = 1.
Proof.
  intros c result.
  assert (Hsize : 0 < ProductComponent.itemsPerPage c) by (simpl; lia).
  assert (Hlen : Z.of_nat (length ["a"; "b"])
            = (ProductComponent.currentPage c - 1)
              * ProductComponent.itemsPerPage c) by reflexivity.
  split; [exact Hsize|]. split; [exact Hlen|].
  exact (proj2 (proj2
    (handleProductDelete_keeps_page true (ProductComponent.Deleted 200)
       "a" ["b"] c)) eq_refl eq_refl Hsize Hlen).
Defined.

Lemma chart_by_type_accounts_for_all_witness :
  let txs := [StandIn.transaction "SELL" 10 5;
              StandIn.transaction "SELL" 20 20;
              StandIn.transaction "PURCHASE" 5 339] in
  (∀ tr, tr ∈ txs →
     DashboardComponent.transactionType tr ∉ JsObject.prototypeKeys) ∧
  DashboardComponent.countTotal
    (DashboardComponent.processChartData JsNumber.integers
       StandIn.objectText txs).1 = 3.
Proof.
  intros txs.
  assert (Hkeys : ∀ tr, tr ∈ txs →
            DashboardComponent.transactionType tr ∉ JsObject.prototypeKeys).
  { intros tr Hin. unfold txs in Hin.
    repeat (apply elem_of_cons in Hin as [->|Hin];
            [unfold JsObject.prototypeKeys;
             rewrite !elem_of_cons, elem_of_nil; intros H;
             repeat (destruct H as [H|H]; [discriminate|]); done|]).
    by apply elem_of_nil in Hin. }
  split; [exact Hkeys|].
  exact (proj1 (proj2 (proj2 (proj2 (proj2
    (chart_by_type_accounts_for_all JsNumber.integers StandIn.objectText
       txs)))) Hkeys)).
Defined.

Lemma monthly_chart_points_witness :
  let txs := [StandIn.transaction "SELL" 5 5;
              StandIn.transaction "SELL" 5 20;
              StandIn.transaction "PURCHASE" 7 339] in
  (∀ tr, tr ∈ txs →
     (1 ≤ StandIn.getDate 0%Z (DashboardComponent.createdAt tr) ≤ 31)%nat) ∧
  (length (DashboardComponent.processMonthlyData StandIn.getDate
             JsNumber.integers StandIn.objectText 0%Z txs)
   ≤ 31)%nat.
Proof.
  intros txs.
  assert (Hrange : ∀ tr, tr ∈ txs →
            (1 ≤ StandIn.getDate 0%Z (DashboardComponent.createdAt tr)
             ≤ 31)%nat).
  { intros tr Hin. unfold txs in Hin.
    repeat (apply elem_of_cons in Hin as [->|Hin]; [vm_compute; lia|]).
    by apply elem_of_nil in Hin. }
  split; [exact Hrange|].
  exact (proj2 (proj2 (proj2
    (monthly_chart_points StandIn.getDate JsNumber.integers
       StandIn.objectText 0 txs))) Hrange).
Defined.

Lemma loadMonthlyData_selection_witness :
  let parse := λ s : string, Z.of_nat (String.length s) in
  let server := λ month _ : Z,
    if bool_decide (month = 2) then Next (Some [StandIn.transaction "SELL" 5 5])
    else Failure in
  let c := {| DashboardComponent.transactions := Some [];
              DashboardComponent.transactionTypeData := [];
              DashboardComponent.transactionAmountData := [];
              DashboardComponent.monthlyTransactionData := [];
              DashboardComponent.selectedMonth := "05";
              DashboardComponent.selectedYear := "2024" |} in
  let result := DashboardComponent.loadMonthlyData StandIn.getDate
                  JsNumber.integers StandIn.objectText parse 0 server c in
  DashboardComponent.selectedMonth c ≠ "" ∧
  DashboardComponent.selectedYear c ≠ "" ∧
  server 2 4 = Next (Some [StandIn.transaction "SELL" 5 5]) ∧
  result.2 = Some (2, 4) ∧
  DashboardComponent.transactions result.1.1
    = Some [StandIn.transaction "SELL" 5 5].
Proof.
  intros parse server c result.
  assert (Hm : DashboardComponent.selectedMonth c ≠ "") by done.
  assert (Hy : DashboardComponent.selectedYear c ≠ "") by done.
  assert (Hs : server 2 4 = Next (Some [StandIn.transaction "SELL" 5 5]))
    by reflexivity.
  pose proof (proj1 (proj2
    (loadMonthlyData_selection StandIn.getDate JsNumber.integers
       StandIn.objectText parse 0 server c)) Hm Hy) as H.
  split; [exact Hm|]. split; [exact Hy|]. split; [exact Hs|].
  split; [exact (proj1 H)|].
  exact (proj1 (proj2 (proj2 (proj2 (proj2 (proj2 (proj2 H)))) _ Hs))).
Defined.

Lemma years_last_ten_witness :
  (3 < 10)%nat ∧ DashboardComponent.years 2025 !! 3%nat = Some 2022.
Proof.
  assert (Hi : (3 < 10)%nat) by lia.
  split; [exact Hi|].
  exact (proj1 (proj2 (years_last_ten 2025)) 3%nat Hi).
Defined.

Lemma sale_form_submission_witness :
  let parse := λ (s : string) (_ : Z), Z.of_nat (String.length s) in
  let server := λ _ : SellComponent.Body Z, SellComponent.Answer 200 "ok" in
  let c := {| SellComponent.products := ["p1"; "p2"];
              SellComponent.productId := "p1";
              SellComponent.description := "";
              SellComponent.quantity := "3";
              SellComponent.message := "" |} in
  SellComponent.productId c ≠ "" ∧ SellComponent.quantity c ≠ "" ∧
  (SellComponent.handleSubmit parse server c).2
  = Some {| SellComponent.bodyProductId := "p1";
            SellComponent.bodyQuantity := 1;
            SellComponent.bodyDescription := "" |}.
Proof.
  intros parse server c.
  assert (Hp : SellComponent.productId c ≠ "") by done.
  assert (Hq : SellComponent.quantity c ≠ "") by done.
  split; [exact Hp|]. split; [exact Hq|].
  exact (proj1 (proj2 (proj2 (sale_form_submission parse server c)) Hp Hq)).
Defined.

Lemma supplier_form_mode_witness :
  let server := λ _ : AddEditSupplierComponent.Request,
    AddEditSupplierComponent.Answer 200 "Acme" "Main St" in
  JsString.contains JsString.slash "edit-supplier" = false ∧
  JsString.contains JsString.slash "7" = false ∧ "7" ≠ "" ∧
  AddEditSupplierComponent.supplierId
    (AddEditSupplierComponent.ngOnInit "/edit-supplier/7" server
       AddEditSupplierComponent.init) = Some "7".
Proof.
  intros server.
  assert (Hseg : JsString.contains JsString.slash "edit-supplier" = false)
    by reflexivity.
  assert (Hid : JsString.contains JsString.slash "7" = false)
    by reflexivity.
  assert (Hne : "7" ≠ "") by done.
  split; [exact Hseg|]. split; [exact Hid|]. split; [exact Hne|].
  exact (proj1 (proj2 (proj1
    (supplier_form_mode server server "edit-supplier" "7" Hseg) Hid Hne))).
Defined.

(** * History of the session *)

Section SessionHistory.

Context {Salt : Type}.
Variable AES_encrypt : Salt → string → string → string.

Abbreviation login := (LoginComponent.login AES_encrypt).
Abbreviation logout := ApiService.logout.
Abbreviation run := (Session.run AES_encrypt).

Lemma run_frame (ops : list Session.Op) (st : gmap string string)
    (key : string) :
  key ≠ "token" → key ≠ "role" → run ops st !! key = st !! key.
Proof.
  intros Ht Hr. induction ops as [|op ops IH] using rev_ind; [done|].
  rewrite run_snoc. destruct op as [s1 s2 t r|]; simpl.
  - rewrite login_lookup. by rewrite !decide_False.
  - rewrite logout_lookup. rewrite decide_False; [done|]. by intros [?|?].
Qed.

(** X19. The stored session depends on the last operation only: whatever
    logins and logouts came before, after a login the storage is the one
    that this login alone gives, and after a logout the one that this
    logout alone gives; no sequence of logins and logouts touches an entry
    other than the token and the role. *)
Theorem session_depends_on_last_operation (ops : list Session.Op)
    (st : gmap string string) :
  (∀ key, key ≠ "token" → key ≠ "role" → run ops st !! key = st !! key) ∧
  (∀ salt_token salt_role token role,
     run (ops ++ [Session.Login salt_token salt_role token role]) st
     = login salt_token salt_role token role st) ∧
  run (ops ++ [Session.Logout]) st = logout st.
Proof.
  split; [|split].
  - intros key. apply run_frame.
  - intros s1 s2 t r. rewrite run_snoc. simpl.
    apply map_eq. intros key. rewrite !login_lookup.
    destruct (decide (key = "role")) as [->|Hr]; [done|].
    destruct (decide (key = "token")) as [->|Ht]; [done|].
    by apply run_frame.
  - rewrite run_snoc. simpl.
    apply map_eq. intros key. rewrite !logout_lookup.
    case_decide as Hk; [done|]. apply run_frame; intros ->; apply Hk; auto.
Qed.

End SessionHistory.

Lemma session_depends_on_last_operation_witness :
  Session.run StandIn.encrypt
    ([Session.Login () () "old" "ADMIN"; Session.Logout]
       ++ [Session.Login () () "t" "USER"]) ∅
  = LoginComponent.login StandIn.encrypt () () "t" "USER" ∅.
Proof.
  apply (session_depends_on_last_operation StandIn.encrypt
           [Session.Login () () "old" "ADMIN"; Session.Logout] ∅).
Defined.
